(** * process-stats: per-process CPU and memory sampling

    A shallow embedding of [src/process_stats.cpp] (namespace
    [ProcessStats]) and the properties of its three entry points
    [getProcessStats], [getModuleStats] and [clearHistory].

    - A C++ [double] is an IEEE-754 binary64 value, taken from the
      Standard Library's executable specification [SpecFloat]
      ([prec = 53], [emax = 1024], round to nearest even).
    - [qint64] and [unsigned long] are [Z] with the wrap-around written out.
    - The file-static [QHash<qint64, QPair<double, qint64>>] is a
      [gmap Z (double * Z)] threaded through every call.
    - What a call reads from the operating system and the clock is an
      explicit argument ([Obs]).
    - The preprocessor selects one body per target.  The flake builds the
      library for [aarch64/x86_64-darwin] and [aarch64/x86_64-linux]; these
      are the two constructors of [Platform].  On both of them [Q_OS_IOS]
      is undefined, so the block guarded by [#ifndef Q_OS_IOS] is compiled
      and the [#else] branch of [getProcessStats] is not. *)

From Stdlib Require Import ZArith Bool List Lia.
From Stdlib Require Import Floats.SpecFloat.
From stdpp Require Import gmap strings list fin_maps.

Open Scope Z_scope.

(** ** Machine integers *)

Definition wrap_int64 (z : Z) : Z := (z + 2 ^ 63) mod 2 ^ 64 - 2 ^ 63.
Definition wrap_uint64 (z : Z) : Z := z mod 2 ^ 64.

(** ** IEEE-754 binary64 *)

Module Double.

Definition prec : Z := 53.
Definition emax : Z := 1024.

Definition double : Type := spec_float.

(** A value that the hardware can hold: finite mantissas are canonical. *)
Definition valid (x : double) : bool := valid_binary prec emax x.

(** Integer to floating conversion ([static_cast<double>] and the usual
    arithmetic conversions), correctly rounded. *)
Definition of_Z (z : Z) : double := binary_normalize prec emax z 0 false.

Definition zero : double := S754_zero false.

Definition sub (x y : double) : double := SFsub prec emax x y.
Definition mul (x y : double) : double := SFmul prec emax x y.
Definition div (x y : double) : double := SFdiv prec emax x y.

Definition ltb (x y : double) : bool := SFltb x y.
Definition leb (x y : double) : bool := SFleb x y.

End Double.

Import Double.

Declare Scope double_scope.
Delimit Scope double_scope with D.
Bind Scope double_scope with double.
Infix "-" := Double.sub : double_scope.
Infix "*" := Double.mul : double_scope.
Infix "/" := Double.div : double_scope.
Infix "<?" := Double.ltb : double_scope.
Infix "<=?" := Double.leb : double_scope.

(** ** Data *)

(** [struct ProcessStatsData] of [process_stats.h]. *)
Record ProcessStatsData := mkStats {
  cpuPercent : double;
  cpuTimeSeconds : double;
  memoryMB : double
}.

(** [s_previous_cpu_times]: pid to (cumulative CPU seconds, timestamp in ms). *)
Abbreviation Cache := (gmap Z (double * Z)).

Inductive Platform := MacOS | Linux.

(** The fields of [struct proc_taskinfo] that the macOS body reads
    (all three are [uint64_t]). *)
Record proc_taskinfo := mkTaskInfo {
  pti_total_user : Z;
  pti_total_system : Z;
  pti_resident_size : Z
}.

(** What one call of [getProcessStats] observes outside the program.
    - [taskinfo]: [Some ti] when [proc_pidinfo] returned
      [sizeof(taskInfo)] and filled [ti]; [None] otherwise.
    - [stat_times]: [Some (utime, stime)] when [/proc/<pid>/stat] opened
      and both extractions [iss >> utime && iss >> stime] after the
      skipped tokens succeeded; [None] otherwise.
    - [clk_tck]: the result of [sysconf(_SC_CLK_TCK)] (a [long]).
    - [vm_rss_kb]: [Some kb] when [/proc/<pid>/status] opened, has a line
      starting with [VmRSS:] and its value token is not empty; the kernel
      prints that token as an unsigned decimal, which [std::stod]
      converts with correct rounding.  [None] otherwise.
    - [now]: [QDateTime::currentMSecsSinceEpoch()]. *)
Record Obs := mkObs {
  taskinfo : option proc_taskinfo;
  stat_times : option (Z * Z);
  clk_tck : Z;
  vm_rss_kb : option Z;
  now : Z
}.

(** ** [getProcessStats] *)

Definition zero_stats : ProcessStatsData := mkStats zero zero zero.

(** The block "Calculate CPU percentage", identical in both bodies.
    [cpuPercent] starts at 0.0 and is assigned only under both guards. *)
Definition cpu_percent (cache : Cache) (pid : Z) (cpuTime : double)
    (currentTime : Z) : double :=
  match cache !! pid with
  | Some previous =>
      let timeDelta := (of_Z (wrap_int64 (currentTime - previous.2)) / of_Z 1000)%D in
      let cpuDelta := (cpuTime - previous.1)%D in
      if (of_Z 0 <? timeDelta)%D then ((cpuDelta / timeDelta) * of_Z 100)%D
      else zero
  | None => zero
  end.

(** The block "Update previous values". *)
Definition update_previous (cache : Cache) (pid : Z) (cpuTime : double)
    (currentTime : Z) : Cache :=
  <[pid := (cpuTime, currentTime)]> cache.

(** Linux: CPU time from the stat file. *)
Definition linux_cpu_time (o : Obs) : double :=
  match stat_times o with
  | Some (utime, stime) =>
      if 0 <? clk_tck o
      then (of_Z (wrap_uint64 (utime + stime)) / of_Z (clk_tck o))%D
      else zero
  | None => zero
  end.

(** Linux: resident memory from the status file. *)
Definition linux_memory_mb (o : Obs) : double :=
  match vm_rss_kb o with
  | Some kb => (of_Z kb / of_Z 1024)%D
  | None => zero
  end.

(** macOS: CPU time and memory from the task info. *)
Definition mac_cpu_time (ti : proc_taskinfo) : double :=
  (of_Z (wrap_uint64 (pti_total_user ti + pti_total_system ti)) / of_Z 1000000)%D.

Definition mac_memory_mb (ti : proc_taskinfo) : double :=
  (of_Z (pti_resident_size ti) / (of_Z 1024 * of_Z 1024))%D.

Definition getProcessStats (p : Platform) (pid : Z) (o : Obs) (cache : Cache)
    : ProcessStatsData * Cache :=
  if pid <=? 0 then (zero_stats, cache)
  else
    match p with
    | MacOS =>
        match taskinfo o with
        | Some ti =>
            let cpu := mac_cpu_time ti in
            (mkStats (cpu_percent cache pid cpu (now o)) cpu (mac_memory_mb ti),
             update_previous cache pid cpu (now o))
        | None => (zero_stats, cache)
        end
    | Linux =>
        let cpu := linux_cpu_time o in
        (mkStats (cpu_percent cache pid cpu (now o)) cpu (linux_memory_mb o),
         update_previous cache pid cpu (now o))
    end.

(** [clearHistory]. *)
Definition clearHistory (cache : Cache) : Cache := ∅.

(** ** JSON values built by [getModuleStats]

    [QJsonObject] keeps its members unique and ordered by key; assigning
    through [operator[]] replaces the member or inserts it at its place. *)

Inductive QJsonValue :=
| QJsonString (s : string)
| QJsonDouble (d : double).

Abbreviation QJsonObject := (list (string * QJsonValue)).
Abbreviation QJsonArray := (list QJsonObject).

Fixpoint QJsonObject_set (key : string) (v : QJsonValue) (obj : QJsonObject)
    : QJsonObject :=
  match obj with
  | [] => [(key, v)]
  | (k, v') :: rest =>
      if String.eqb key k then (key, v) :: rest
      else if String.ltb key k then (key, v) :: (k, v') :: rest
      else (k, v') :: QJsonObject_set key v rest
  end.

Definition QJsonObject_keys (obj : QJsonObject) : list string := obj.*1.

Definition QJsonObject_value (key : string) (obj : QJsonObject)
    : option QJsonValue :=
  snd <$> List.find (fun kv => String.eqb key kv.1) obj.

(** [QJsonDocument(array).toJson(QJsonDocument::Compact)]: no white space
    between tokens.  How Qt prints a number and quotes a string is left
    open ([number], [quoted]). *)
Section Serialization.

Variable number : double -> string.
Variable quoted : string -> string.

Definition value_text (v : QJsonValue) : string :=
  match v with
  | QJsonString s => quoted s
  | QJsonDouble d => number d
  end.

Definition member_text (kv : string * QJsonValue) : string :=
  quoted kv.1 +:+ ":" +:+ value_text kv.2.

Definition object_text (obj : QJsonObject) : string :=
  "{" +:+ String.concat "," (map member_text obj) +:+ "}".

Definition toJson_Compact (arr : QJsonArray) : string :=
  "[" +:+ String.concat "," (map object_text arr) +:+ "]".

End Serialization.

(** ** [getModuleStats] *)

(** Lines written through [qDebug] and [qWarning]. *)
Inductive LogRecord :=
| Debug_called
| Warning_invalid_pid (pluginName : string)
| Debug_module_stats (pluginName : string) (stats : ProcessStatsData)
| Debug_returning (modules : nat).

(** [processes] is the [QHash<QString, qint64>] in the order in which
    [begin() .. end()] traverses it. *)
Abbreviation Processes := (list (string * Z)).

Definition activePids (processes : Processes) : gset Z :=
  list_to_set processes.*2.

(** The [while] loop over the cache that erases the stale entries. *)
Definition evict_stale (active : gset Z) (cache : Cache) : Cache :=
  filter (fun kv => kv.1 ∈ active) cache.

Definition moduleObj (pluginName : string) (stats : ProcessStatsData)
    : QJsonObject :=
  QJsonObject_set "memory_mb" (QJsonDouble (memoryMB stats))
    (QJsonObject_set "cpu_time_seconds" (QJsonDouble (cpuTimeSeconds stats))
      (QJsonObject_set "cpu_percent" (QJsonDouble (cpuPercent stats))
        (QJsonObject_set "name" (QJsonString pluginName) []))).

Record LoopState := mkLoop {
  modulesArray : QJsonArray;
  logged : list LogRecord;
  previous_cpu_times : Cache
}.

(** One iteration of the [for] loop over [processes]; [o] is what the
    iteration observes when it reaches [getProcessStats]. *)
Definition loop_body (p : Platform) (o : Obs) (entry : string * Z)
    (st : LoopState) : LoopState :=
  let pluginName := entry.1 in
  let pid := entry.2 in
  if pid <=? 0 then
    mkLoop (modulesArray st)
           (logged st ++ [Warning_invalid_pid pluginName])
           (previous_cpu_times st)
  else
    let r := getProcessStats p pid o (previous_cpu_times st) in
    mkLoop (modulesArray st ++ [moduleObj pluginName r.1])
           (logged st ++ [Debug_module_stats pluginName r.1])
           r.2.

(** The [for] loop.  [w] lists what the successive iterations observe:
    the first one [w 0], and the remaining ones [w 1], [w 2], ... *)
Fixpoint sample_loop (p : Platform) (w : nat -> Obs)
    (processes : Processes) (st : LoopState) : LoopState :=
  match processes with
  | [] => st
  | entry :: rest =>
      sample_loop p (fun i => w (S i)) rest (loop_body p (w 0%nat) entry st)
  end.

(** The state in which the loop starts: empty array, the first [qDebug]
    line, and the cache without its stale entries. *)
Definition loop_start (processes : Processes) (cache : Cache) : LoopState :=
  mkLoop [] [Debug_called] (evict_stale (activePids processes) cache).

(** Everything up to "Convert to JSON string". *)
Definition collect_modules (p : Platform) (w : nat -> Obs)
    (processes : Processes) (cache : Cache) : LoopState :=
  sample_loop p w processes (loop_start processes cache).

Section GetModuleStats.

Variable number : double -> string.
Variable quoted : string -> string.

(** The returned buffer, the log and the cache after the call. *)
Definition getModuleStats (p : Platform) (w : nat -> Obs)
    (processes : Processes) (cache : Cache)
    : string * list LogRecord * Cache :=
  let st := collect_modules p w processes cache in
  (toJson_Compact number quoted (modulesArray st),
   logged st ++ [Debug_returning (length (modulesArray st))],
   previous_cpu_times st).

End GetModuleStats.

(** ** Concrete observations used in the examples *)

(** Every lookup fails: no task info, no readable [/proc] file. *)
Definition obs_lookup_failed (t : Z) : Obs := mkObs None None 100 None t.

(** A live process: [ticks] clock ticks (at 100 per second) and, on macOS,
    the same amount of time in microseconds; 2048 kB resident. *)
Definition obs_live (ticks t : Z) : Obs :=
  mkObs (Some (mkTaskInfo (ticks * 10000) 0 (2048 * 1024)))
        (Some (ticks, 0)) 100 (Some 2048) t.

(** ** The percentage block *)

(** Elapsed wall-clock seconds since a cached timestamp, as the code
    computes them: a [qint64] difference converted and divided by 1000.0. *)
Definition elapsedSeconds (currentTime sampledAt : Z) : double :=
  (of_Z (wrap_int64 (currentTime - sampledAt)) / of_Z 1000)%D.

(** Whether a call with a valid pid reaches the two blocks "Calculate CPU
    percentage" and "Update previous values": always on Linux, only
    inside [if (ret == sizeof(taskInfo))] on macOS. *)
Definition reaches_update (p : Platform) (o : Obs) : bool :=
  match p with
  | Linux => true
  | MacOS => match taskinfo o with Some _ => true | None => false end
  end.

(** The percentage as the specification words it, for a call that found
    [entry] in the cache under its pid, returned [r] and read the clock at
    [currentTime]: zero without an entry; the rate over the elapsed seconds
    when these are positive; zero otherwise. *)
Definition cpuPercent_as_specified (entry : option (double * Z))
    (r : ProcessStatsData) (currentTime : Z) : Prop :=
  match entry with
  | None => cpuPercent r = zero
  | Some (cumulativeCpuSeconds, sampledAtEpochMillis) =>
      let elapsed := elapsedSeconds currentTime sampledAtEpochMillis in
      if (of_Z 0 <? elapsed)%D
      then cpuPercent r =
             ((cpuTimeSeconds r - cumulativeCpuSeconds) / elapsed * of_Z 100)%D
      else cpuPercent r = zero
  end.

(** ** The batch, entry by entry *)

(** The cache that iteration [i] of a loop started in [st] finds. *)
Definition cache_before (p : Platform) (w : nat -> Obs)
    (processes : Processes) (st : LoopState) (i : nat) : Cache :=
  previous_cpu_times (sample_loop p w (take i processes) st).

(** The array element that iteration [i] appends for a valid entry. *)
Definition appended (p : Platform) (w : nat -> Obs) (processes : Processes)
    (st : LoopState) (ie : nat * (string * Z)) : QJsonObject :=
  moduleObj ie.2.1
    (getProcessStats p ie.2.2 (w ie.1) (cache_before p w processes st ie.1)).1.

Definition valid_pid (pid : Z) : Prop := 0 < pid.

Definition indexed (processes : Processes) : list (nat * (string * Z)) :=
  imap (fun i entry => (i, entry)) processes.

(** The plugin name a log line warns about, if it is a warning. *)
Definition warned_name (l : LogRecord) : option string :=
  match l with Warning_invalid_pid name => Some name | _ => None end.

(** Moves an indexed entry one iteration later. *)
Definition later (ie : nat * (string * Z)) : nat * (string * Z) :=
  (S ie.1, ie.2).

(** ** Histories of the cache *)

(** The three operations of the interface, each with what it observes. *)
Inductive Operation :=
| SampleOne (pid : Z) (o : Obs)
| SampleBatch (w : nat -> Obs) (processes : Processes)
| ResetCache.

Definition perform (p : Platform) (cache : Cache) (op : Operation) : Cache :=
  match op with
  | SampleOne pid o => (getProcessStats p pid o cache).2
  | SampleBatch w processes =>
      previous_cpu_times (collect_modules p w processes cache)
  | ResetCache => clearHistory cache
  end.

(** The cache after a history that starts with the empty [QHash] of the
    static initialisation. *)
Definition cache_after (p : Platform) (history : list Operation) : Cache :=
  foldl (perform p) ∅ history.

(** The samplings of an operation: the pids, all positive, for which it
    runs the platform body of [getProcessStats], each with what that run
    observed. *)
Definition samplings (op : Operation) : list (Z * Obs) :=
  match op with
  | SampleOne pid o => if 0 <? pid then [(pid, o)] else []
  | SampleBatch w processes =>
      (fun ie : nat * (string * Z) => (ie.2.2, w ie.1)) <$>
        filter (fun ie => valid_pid ie.2.2) (indexed processes)
  | ResetCache => []
  end.

Definition all_samplings (history : list Operation) : list (Z * Obs) :=
  concat (samplings <$> history).

(** A sampling is successful when it read a counter of the process: the
    task info on macOS; the two times of the stat file, or the resident
    size of the status file, on Linux. *)
Definition counters_read (p : Platform) (o : Obs) : bool :=
  match p with
  | MacOS => match taskinfo o with Some _ => true | None => false end
  | Linux =>
      match stat_times o, vm_rss_kb o with
      | None, None => false
      | _, _ => true
      end
  end.

(** The invariant as the specification words it: a pid has a cache entry
    only if one of its samplings so far was successful. *)
Definition entries_only_for_sampled (p : Platform) : Prop :=
  forall history pid,
    is_Some (cache_after p history !! pid) ->
    exists o, (pid, o) ∈ all_samplings history /\ counters_read p o = true.

(** ** Shapes of floating-point values *)

(** What a rounding of a non-negative mantissa with sign [s] can yield,
    where [T] bounds the magnitude of the input: never a NaN, the sign is
    kept, an infinity needs [T] beyond the largest exponent, and a finite
    result is bounded by [T] (and canonical when [canon] is set). *)
Definition rounded (s : bool) (T : Z) (canon : bool) (r : spec_float) : Prop :=
  match r with
  | S754_zero s' => s' = s
  | S754_infinity s' => s' = s /\ emax - prec < T
  | S754_nan => False
  | S754_finite s' m' e' =>
      s' = s /\ e' <= emax - prec /\ e' <= T /\
      Zpos (digits2_pos m') + e' <= T + 1 /\
      (canon = true -> canonical_mantissa prec emax m' e' = true)
  end.

(** Neither an infinity nor a NaN. *)
Definition is_finite (x : spec_float) : bool :=
  match x with
  | S754_zero _ | S754_finite _ _ _ => true
  | S754_infinity _ | S754_nan => false
  end.

(** ** Further definitions: compositions of the operations *)

(** A series of calls of [getProcessStats], each with its pid and what it
    observes; the cache after the last one. *)
Definition sample_series (p : Platform) (cache : Cache)
    (calls : list (Z * Obs)) : Cache :=
  foldl (fun c call => (getProcessStats p call.1 call.2 c).2) cache calls.

(** The pids of a mapping that [getModuleStats] samples. *)
Definition sampled_pids (processes : Processes) : list Z :=
  filter valid_pid processes.*2.

(** ** Further definitions: shapes of floating-point values *)

(** What a rounding of a positive mantissa with sign [s] yields when the
    input is above the underflow range: a finite value of sign [s] whose
    exponent is at least [E] and whose magnitude is at least [L], or an
    infinity of sign [s]; never a zero and never a NaN. *)
Definition rounded_nonzero (s : bool) (L E : Z) (r : spec_float) : Prop :=
  match r with
  | S754_finite s' m' e' =>
      s' = s /\ E <= e' /\ L <= Zpos (digits2_pos m') + e'
  | S754_infinity s' => s' = s
  | S754_zero _ | S754_nan => False
  end.

(** The readings of an observation lie in the range of their C types:
    [sysconf] returns a [long], the resident size printed by the kernel is
    an [unsigned long], and [pti_resident_size] is a [uint64_t]. *)
Definition in_range (o : Obs) : Prop :=
  clk_tck o < 2 ^ 63 /\
  (forall kb, vm_rss_kb o = Some kb -> 0 <= kb < 2 ^ 64) /\
  (forall ti, taskinfo o = Some ti -> 0 <= pti_resident_size ti < 2 ^ 64).

(** ** Further definitions: the Linux body reading [/proc]

    The text of the two files is parsed as the stream operations of the
    source do it.  The extraction of a number is modelled for tokens made
    of decimal digits only, which is what the kernel prints in the fields
    concerned; for any other token the result is [NotModelled]. *)

(** [std::isspace] in the classic locale: space and the characters 9 to 13
    (tab, line feed, vertical tab, form feed, carriage return). *)
Definition isspace (c : Ascii.ascii) : bool :=
  let n := Ascii.nat_of_ascii c in
  Nat.eqb n 32 || (Nat.leb 9 n && Nat.leb n 13).

Definition is_newline (c : Ascii.ascii) : bool := Nat.eqb (Ascii.nat_of_ascii c) 10.

(** The successive results of [iss >> token] on a line: the maximal runs of
    characters that are not white space.  [cur] holds the run being read. *)
Fixpoint tokens_from (cur : string) (s : string) : list string :=
  match s with
  | EmptyString => match cur with EmptyString => [] | _ => [cur] end
  | String c rest =>
      if isspace c then
        match cur with
        | EmptyString => tokens_from EmptyString rest
        | _ => cur :: tokens_from EmptyString rest
        end
      else tokens_from (cur +:+ String c EmptyString) rest
  end.

Definition tokens (line : string) : list string := tokens_from EmptyString line.

(** The successive results of [std::getline] on the text of a file. *)
Fixpoint lines_from (cur : string) (s : string) : list string :=
  match s with
  | EmptyString => match cur with EmptyString => [] | _ => [cur] end
  | String c rest =>
      if is_newline c then cur :: lines_from EmptyString rest
      else lines_from (cur +:+ String c EmptyString) rest
  end.

Definition getlines (text : string) : list string := lines_from EmptyString text.

Definition digit_of (c : Ascii.ascii) : option Z :=
  let n := Z.of_nat (Ascii.nat_of_ascii c) in
  if (48 <=? n) && (n <=? 57) then Some (n - 48) else None.

Fixpoint decimal_from (acc : Z) (s : string) : option Z :=
  match s with
  | EmptyString => Some acc
  | String c rest =>
      match digit_of c with
      | Some d => decimal_from (10 * acc + d) rest
      | None => None
      end
  end.

(** The value of a token made of decimal digits only. *)
Definition decimal_value (token : string) : option Z :=
  match token with
  | EmptyString => None
  | _ => decimal_from 0 token
  end.

(** What [if (iss >> utime && iss >> stime)] yields. *)
Inductive StatRead :=
| Extracted (utime stime : Z)
| NotExtracted
| StatNotModelled.

(** The stat file: [None] when it did not open.  The first line is read,
    fourteen tokens are skipped ([for (int i = 0; i < 14 && iss >> token;
    ++i)]), and two [unsigned long] are extracted; an extraction fails at
    the end of the line and on a value that does not fit 64 bits. *)
Definition read_stat (file : option string) : StatRead :=
  match file with
  | None => NotExtracted
  | Some text =>
      match drop 14 (tokens (hd EmptyString (getlines text))) with
      | [] => NotExtracted
      | t1 :: after =>
          match decimal_value t1 with
          | None => StatNotModelled
          | Some utime =>
              if 2 ^ 64 <=? utime then NotExtracted
              else
                match after with
                | [] => NotExtracted
                | t2 :: _ =>
                    match decimal_value t2 with
                    | None => StatNotModelled
                    | Some stime =>
                        if 2 ^ 64 <=? stime then NotExtracted
                        else Extracted utime stime
                    end
                end
          end
      end
  end.

(** What the loop over the status file leaves for the memory. *)
Inductive StatusRead :=
| ResidentKB (kb : Z)
| NoResident
| StatusNotModelled.

(** The body of [if (line.find("VmRSS:") == 0)]: the second token of the
    line is the value, converted by [std::stod] unless it is empty. *)
Definition read_VmRSS_line (line : string) : StatusRead :=
  match tokens line with
  | _ :: value :: _ =>
      match decimal_value value with
      | Some kb => if kb <? 2 ^ 64 then ResidentKB kb else StatusNotModelled
      | None => StatusNotModelled
      end
  | _ => NoResident
  end.

(** The [while (std::getline(statusFile, line))] loop, which stops at the
    first line that starts with [VmRSS:]. *)
Fixpoint scan_status (lines : list string) : StatusRead :=
  match lines with
  | [] => NoResident
  | line :: rest =>
      if String.prefix "VmRSS:" line then read_VmRSS_line line
      else scan_status rest
  end.

Definition read_status (file : option string) : StatusRead :=
  match file with
  | None => NoResident
  | Some text => scan_status (getlines text)
  end.

(** What a call on Linux observes, from the text of the two files, the
    clock ticks per second and the clock; [None] where the model of the
    extractions does not apply. *)
Definition linux_observation (stat status : option string) (clk t : Z)
    : option Obs :=
  match read_stat stat, read_status status with
  | StatNotModelled, _ | _, StatusNotModelled => None
  | st, mem =>
      Some (mkObs None
              (match st with Extracted u s => Some (u, s) | _ => None end)
              clk
              (match mem with ResidentKB kb => Some kb | _ => None end)
              t)
  end.

(** A line feed, and the text of a file made of the given lines. *)
Definition newline : string := String (Ascii.ascii_of_nat 10) EmptyString.

Definition space : Ascii.ascii := Ascii.ascii_of_nat 32.

Fixpoint unlines (lines : list string) : string :=
  match lines with
  | [] => EmptyString
  | line :: rest => line +:+ newline +:+ unlines rest
  end.

(** Strings without white space, without line feed, and of white space
    other than line feeds only. *)
Fixpoint no_space (s : string) : bool :=
  match s with
  | EmptyString => true
  | String c rest => negb (isspace c) && no_space rest
  end.

Fixpoint no_newline (s : string) : bool :=
  match s with
  | EmptyString => true
  | String c rest => negb (is_newline c) && no_newline rest
  end.

Fixpoint blank (s : string) : bool :=
  match s with
  | EmptyString => true
  | String c rest => isspace c && negb (is_newline c) && blank rest
  end.

(** A field of a line: not empty, no white space. *)
Definition is_field (t : string) : bool :=
  match t with
  | EmptyString => false
  | _ => no_space t
  end.

(** The line of the status file for the resident size, as the kernel
    prints it: the label, white space, the value, and the unit. *)
Definition VmRSS_line (pad value : string) : string :=
  "VmRSS:" +:+ pad +:+ value +:+ " kB".

(** A line that the loop over the status file passes over. *)
Definition other_line (l : string) : Prop :=
  no_newline l = true /\ String.prefix "VmRSS:" l = false.

Definition tab : Ascii.ascii := Ascii.ascii_of_nat 9.

(** ** Further definitions: magnitudes and histories in range *)

(** A zero, or a finite value of magnitude below [2 ^ T]. *)
Definition magnitude_below (T : Z) (x : spec_float) : Prop :=
  match x with
  | S754_zero _ => True
  | S754_finite _ m e => Zpos (digits2_pos m) + e <= T
  | S754_infinity _ | S754_nan => False
  end.

(** Every cached CPU time is a zero or a finite value below [2 ^ 118]. *)
Definition cache_bounded (cache : Cache) : Prop :=
  forall pid c t, cache !! pid = Some (c, t) -> magnitude_below 118 c.

(** The clock ticks per second that the samplings of an operation read are
    in the range of [long], the type of [sysconf]'s result. *)
Definition op_in_range (op : Operation) : Prop :=
  match op with
  | SampleOne _ o => clk_tck o < 2 ^ 63
  | SampleBatch w _ => forall i, clk_tck (w i) < 2 ^ 63
  | ResetCache => True
  end.

(** ** Exceptions: the call of [std::stod] in the Linux body

    [getProcessStats] and [getModuleStats] contain no [try] block, so an
    exception thrown inside them leaves them.  The only call in the two
    bodies that throws on the content of what it reads is
    [std::stod(value)] in the loop over the status file; running out of
    memory is not modelled. *)

(** Whether [strtod] can begin a conversion at this character: a digit, a
    sign, the decimal point, or the first letter of [inf] or [nan]. *)
Definition may_start_number (c : Ascii.ascii) : bool :=
  match digit_of c with
  | Some _ => true
  | None =>
      existsb (Nat.eqb (Ascii.nat_of_ascii c))
        [43; 45; 46; 73; 78; 105; 110]%nat
  end.

(** Tokens on which [std::stod] throws [std::invalid_argument] for certain:
    no conversion is performed when the first character cannot begin a
    number.  (Which of the other tokens are converted, and to what, is
    modelled for decimal tokens only, by [read_VmRSS_line].) *)
Definition stod_rejects (token : string) : bool :=
  match token with
  | EmptyString => true
  | String c _ => negb (may_start_number c)
  end.

(** The argument of [std::stod], when the loop over the status file
    reaches the call: the second token of the first line that starts with
    [VmRSS:], unless it is empty ([if (!value.empty())]). *)
Fixpoint stod_argument_in (lines : list string) : option string :=
  match lines with
  | [] => None
  | line :: rest =>
      if String.prefix "VmRSS:" line then
        match tokens line with
        | _ :: value :: _ => Some value
        | _ => None
        end
      else stod_argument_in rest
  end.

Definition stod_argument (file : option string) : option string :=
  match file with
  | None => None
  | Some text => stod_argument_in (getlines text)
  end.

(** What a call finds on the host: on macOS the task info that
    [proc_pidinfo] filled, if it did, and the clock; on Linux the text of
    the stat and status files, where they open, the clock ticks per second
    and the clock. *)
Inductive Host :=
| MacHost (ti : option proc_taskinfo) (t : Z)
| LinuxHost (stat status : option string) (clk t : Z).

(** How a call ends: it returns; or an exception leaves it, with the cache
    as it is at that moment; or the model of the extractions does not
    apply to what it reads. *)
Inductive Outcome (A : Type) :=
| Returns (a : A)
| Thrown (cache : Cache)
| OutcomeNotModelled.

Arguments Returns {A} a.
Arguments Thrown {A} cache.
Arguments OutcomeNotModelled {A}.

(** The macOS reading as an observation: the fields of the Linux body are
    not read. *)
Definition mac_observation (ti : option proc_taskinfo) (t : Z) : Obs :=
  mkObs ti None 0 None t.

(** [getProcessStats] with its exceptions.  The early return comes before
    any file is opened; on Linux [std::stod] is called after the stat file
    was read and before the percentage block and the update, so a throw
    leaves the cache untouched. *)
Definition getProcessStats_exn (pid : Z) (h : Host) (cache : Cache)
    : Outcome (ProcessStatsData * Cache) :=
  if pid <=? 0 then Returns (zero_stats, cache)
  else
    match h with
    | MacHost ti t =>
        Returns (getProcessStats MacOS pid (mac_observation ti t) cache)
    | LinuxHost stat status clk t =>
        let finish :=
          match linux_observation stat status clk t with
          | Some o => Returns (getProcessStats Linux pid o cache)
          | None => OutcomeNotModelled
          end in
        match stod_argument status with
        | Some value => if stod_rejects value then Thrown cache else finish
        | None => finish
        end
    end.

(** The [for] loop of [getModuleStats] with its exceptions: an exception
    that leaves [getProcessStats] leaves the loop, after the iterations
    before it have updated the cache. *)
Fixpoint sample_loop_exn (w : nat -> Host) (processes : Processes)
    (st : LoopState) : Outcome LoopState :=
  match processes with
  | [] => Returns st
  | entry :: rest =>
      let pluginName := entry.1 in
      let pid := entry.2 in
      if pid <=? 0 then
        sample_loop_exn (fun i => w (S i)) rest
          (mkLoop (modulesArray st)
                  (logged st ++ [Warning_invalid_pid pluginName])
                  (previous_cpu_times st))
      else
        match getProcessStats_exn pid (w 0%nat) (previous_cpu_times st) with
        | Returns r =>
            sample_loop_exn (fun i => w (S i)) rest
              (mkLoop (modulesArray st ++ [moduleObj pluginName r.1])
                      (logged st ++ [Debug_module_stats pluginName r.1])
                      r.2)
        | Thrown cache => Thrown cache
        | OutcomeNotModelled => OutcomeNotModelled
        end
  end.

Section GetModuleStatsExn.

Variable number : double -> string.
Variable quoted : string -> string.

(** [getModuleStats] with its exceptions.  After the loop nothing throws
    on the content of the array, and there is no other exit: when the call
    returns, it returns the text of the array that the loop built. *)
Definition getModuleStats_exn (w : nat -> Host) (processes : Processes)
    (cache : Cache) : Outcome (string * list LogRecord * Cache) :=
  match sample_loop_exn w processes (loop_start processes cache) with
  | Returns st =>
      Returns (toJson_Compact number quoted (modulesArray st),
               logged st ++ [Debug_returning (length (modulesArray st))],
               previous_cpu_times st)
  | Thrown cache' => Thrown cache'
  | OutcomeNotModelled => OutcomeNotModelled
  end.

End GetModuleStatsExn.

(** The host holds, for the platform [p], what the observation [o] says:
    the call reads [o] and nothing throws. *)
Definition host_reads (p : Platform) (h : Host) (o : Obs) : Prop :=
  match p, h with
  | MacOS, MacHost ti t => taskinfo o = ti /\ now o = t
  | Linux, LinuxHost stat status clk t =>
      linux_observation stat status clk t = Some o
  | _, _ => False
  end.

(** The status file of the host makes [std::stod] throw. *)
Definition stod_throws_on (h : Host) : Prop :=
  match h with
  | MacHost _ _ => False
  | LinuxHost _ status _ _ =>
      exists value, stod_argument status = Some value /\
                    stod_rejects value = true
  end.

(** ** The stat line as the kernel prints it

    [/proc/[pid]/stat] is one line: the pid, the command name in
    parentheses, the state, and the numeric fields 4, 5, ...; the command
    name may contain spaces.  Field 8 is [tpgid], field 9 [flags], field 14
    [utime] and field 15 [stime], the last two in clock ticks. *)
Record proc_stat := mkProcStat {
  ps_pid : string;
  ps_comm : string;
  ps_state : string;
  ps_fields_from_4 : list string
}.

Definition proc_stat_text (s : proc_stat) : string :=
  ps_pid s +:+ " (" +:+ ps_comm s +:+ ") " +:+ ps_state s +:+ " " +:+
  String.concat " " (ps_fields_from_4 s) +:+ newline.

(** The CPU time the process has consumed, in clock ticks: [utime + stime],
    fields 14 and 15. *)
Definition proc_stat_cpu_ticks (s : proc_stat) : option Z :=
  match ps_fields_from_4 s !! 10%nat, ps_fields_from_4 s !! 11%nat with
  | Some utime, Some stime =>
      match decimal_value utime, decimal_value stime with
      | Some u, Some v => Some (u + v)
      | _, _ => None
      end
  | _, _ => None
  end.

(** A process whose command name is eight words, in the foreground process
    group [tpgid] of its terminal, with [utime] ticks of user time. *)
Definition eight_word_process (tpgid utime : string) : proc_stat :=
  mkProcStat "1234" "a b c d e f g h" "R"
    ["1"; "1234"; "1234"; "34816"; tpgid; "4194304"; "100"; "0"; "0"; "0";
     utime; "3"; "0"; "0"; "20"; "0"; "1"; "0"; "5000"; "8000000"; "200"].

(** * Properties *)

Lemma getProcessStats_nonpositive p pid o cache :
  pid <= 0 -> getProcessStats p pid o cache = (zero_stats, cache).
Proof.
  intros Hpid. unfold getProcessStats.
  destruct (Z.leb_spec pid 0) as [_|Hlt]; [reflexivity | lia].
Qed.

Lemma getProcessStats_skipped pid o cache :
  taskinfo o = None -> getProcessStats MacOS pid o cache = (zero_stats, cache).
Proof.
  intros Hti. unfold getProcessStats. rewrite Hti. by destruct (pid <=? 0).
Qed.

Lemma getProcessStats_reached p pid o cache :
  0 < pid -> reaches_update p o = true ->
  exists cpu mem,
    getProcessStats p pid o cache =
      (mkStats (cpu_percent cache pid cpu (now o)) cpu mem,
       update_previous cache pid cpu (now o)).
Proof.
  intros Hpid Hreach. unfold getProcessStats.
  destruct (Z.leb_spec pid 0) as [Hle|_]; [lia|].
  destruct p; simpl in Hreach.
  - destruct (taskinfo o) as [ti|]; [|discriminate]. by eexists _, _.
  - by eexists _, _.
Qed.

Lemma getProcessStats_not_reached p pid o cache :
  reaches_update p o = false ->
  getProcessStats p pid o cache = (zero_stats, cache).
Proof.
  destruct p; simpl; [|discriminate].
  destruct (taskinfo o) eqn:Hti; [discriminate|].
  intros _. by apply getProcessStats_skipped.
Qed.

(** The cache after a call, in one equation. *)
Lemma getProcessStats_cache p pid o cache :
  (getProcessStats p pid o cache).2 =
    if (0 <? pid) && reaches_update p o
    then <[pid := (cpuTimeSeconds (getProcessStats p pid o cache).1, now o)]> cache
    else cache.
Proof.
  destruct (Z.ltb_spec 0 pid) as [Hpos|Hle]; simpl.
  - destruct (reaches_update p o) eqn:Hreach.
    + destruct (getProcessStats_reached p pid o cache Hpos Hreach)
        as (cpu & mem & ->). reflexivity.
    + by rewrite getProcessStats_not_reached.
  - by rewrite getProcessStats_nonpositive.
Qed.

(** The returned percentage, in one equation. *)
Lemma getProcessStats_cpuPercent p pid o cache :
  cpuPercent (getProcessStats p pid o cache).1 =
    if (0 <? pid) && reaches_update p o
    then cpu_percent cache pid
           (cpuTimeSeconds (getProcessStats p pid o cache).1) (now o)
    else zero.
Proof.
  destruct (Z.ltb_spec 0 pid) as [Hpos|Hle]; simpl.
  - destruct (reaches_update p o) eqn:Hreach.
    + destruct (getProcessStats_reached p pid o cache Hpos Hreach)
        as (cpu & mem & ->). reflexivity.
    + by rewrite getProcessStats_not_reached.
  - by rewrite getProcessStats_nonpositive.
Qed.

Lemma cpu_percent_no_entry (cache : Cache) pid cpu t :
  cache !! pid = None -> cpu_percent cache pid cpu t = zero.
Proof. intros H. unfold cpu_percent. by rewrite H. Qed.

Lemma cpu_percent_as_specified (cache : Cache) pid cpu mem t :
  cpuPercent_as_specified (cache !! pid)
    (mkStats (cpu_percent cache pid cpu t) cpu mem) t.
Proof.
  unfold cpuPercent_as_specified, cpu_percent, elapsedSeconds.
  destruct (cache !! pid) as [[c ts]|]; [|reflexivity].
  cbn [fst snd cpuPercent cpuTimeSeconds].
  by destruct (Double.ltb _ _).
Qed.

(** ** C1: the returned percentage *)

Lemma getProcessStats_first_call p pid o (cache : Cache) :
  cache !! pid = None ->
  cpuPercent (getProcessStats p pid o cache).1 = zero.
Proof.
  intros Hnone. rewrite getProcessStats_cpuPercent.
  destruct ((0 <? pid) && reaches_update p o); [|reflexivity].
  by apply cpu_percent_no_entry.
Qed.

(** C1, as amended.  Take a call of [getProcessStats] with [pid > 0].  On
    Linux, and on macOS when [proc_pidinfo] filled the task info, the
    returned [cpuPercent] is 0.0 if the cache has no entry for [pid] (as
    after [clearHistory]); it is
    [((cpuTimeSeconds - entry.first) / elapsed) * 100.0] if the cache has an
    entry and the elapsed seconds since its timestamp are positive; it is
    0.0 otherwise, so the division is guarded.  On macOS when the lookup
    failed the returned [cpuPercent] is 0.0 whatever the cache holds. *)
Theorem getProcessStats_cpuPercent_characterised p pid o (cache : Cache) :
  0 < pid ->
  let r := (getProcessStats p pid o cache).1 in
  (if reaches_update p o
   then cpuPercent_as_specified (cache !! pid) r (now o)
   else cpuPercent r = zero) /\
  cpuPercent (getProcessStats p pid o (clearHistory cache)).1 = zero.
Proof.
  intros Hpid r. subst r. split.
  - destruct (reaches_update p o) eqn:Hreach.
    + destruct (getProcessStats_reached p pid o cache Hpid Hreach)
        as (cpu & mem & ->).
      apply cpu_percent_as_specified.
    + by rewrite getProcessStats_not_reached.
  - apply getProcessStats_first_call. unfold clearHistory.
    apply lookup_empty.
Qed.

Lemma getProcessStats_cpuPercent_characterised_witness :
  cpuPercent_as_specified
    (({[ 7 := (of_Z 2, 1000) ]} : Cache) !! 7)
    (getProcessStats Linux 7 (obs_live 300 3000) {[ 7 := (of_Z 2, 1000) ]}).1
    3000.
Proof.
  apply (proj1 (getProcessStats_cpuPercent_characterised Linux 7
                  (obs_live 300 3000) {[ 7 := (of_Z 2, 1000) ]} ltac:(lia))).
Defined.

(** The claim as first stated fails on macOS: pid 7 was sampled with 5 s of
    CPU time at t = 0 and its lookup fails at t = 1000 ms.  The cache has
    an entry, the elapsed time is 1.0 s, the call returns 0.0 in all three
    fields, and the stated rate [((0.0 - 5.0) / 1.0) * 100.0] is -500.0. *)
Lemma getProcessStats_cpuPercent_mac_lookup_failed :
  let cache : Cache := {[ 7 := (of_Z 5, 0) ]} in
  let r := (getProcessStats MacOS 7 (obs_lookup_failed 1000) cache).1 in
  0 < 7 /\
  cache !! 7 = Some (of_Z 5, 0) /\
  elapsedSeconds 1000 0 = of_Z 1 /\
  r = mkStats zero zero zero /\
  ((cpuTimeSeconds r - of_Z 5) / elapsedSeconds 1000 0 * of_Z 100)%D =
    of_Z (-500) /\
  ~ cpuPercent_as_specified (cache !! 7) r (now (obs_lookup_failed 1000)).
Proof.
  repeat split; try reflexivity. vm_compute. discriminate.
Qed.

(** ** C3: the cache update *)

(** C3, as amended.  For every [pid > 0]: on Linux the call always sets the
    cache entry of [pid] to the returned [cpuTimeSeconds] and the time of
    the call, also when no [/proc] file could be read; on macOS it does so
    exactly when [proc_pidinfo] filled the task info, and leaves the cache
    as it was when the lookup failed. *)
Theorem getProcessStats_upsert p pid o cache :
  0 < pid ->
  let r := getProcessStats p pid o cache in
  match p, taskinfo o with
  | MacOS, None => r.2 = cache
  | _, _ => r.2 = <[pid := (cpuTimeSeconds r.1, now o)]> cache
  end.
Proof.
  intros Hpid r. subst r. rewrite getProcessStats_cache.
  destruct (Z.ltb_spec 0 pid) as [_|Hle]; [|lia].
  destruct p; simpl; [|reflexivity].
  by destruct (taskinfo o).
Qed.

Lemma getProcessStats_upsert_witness :
  (getProcessStats Linux 7 (obs_lookup_failed 1000) ∅).2 =
    <[7 := (cpuTimeSeconds (getProcessStats Linux 7 (obs_lookup_failed 1000) ∅).1,
            1000)]> ∅.
Proof.
  apply (getProcessStats_upsert Linux 7 (obs_lookup_failed 1000) ∅). lia.
Defined.

(** The claim as first stated fails on macOS: the lookup of pid 7 fails at
    t = 1000 ms; the call returns zeroes, and the cache, empty before the
    call, is still empty after it, where the claim wants the entry
    [(0.0, 1000)] under 7. *)
Lemma getProcessStats_no_upsert_mac_lookup_failed :
  let r := getProcessStats MacOS 7 (obs_lookup_failed 1000) ∅ in
  0 < 7 /\
  r = (mkStats zero zero zero, ∅) /\
  r.2 !! 7 = None /\
  r.2 !! 7 <> Some (cpuTimeSeconds r.1, now (obs_lookup_failed 1000)).
Proof.
  repeat split; try reflexivity. vm_compute. discriminate.
Qed.

(** ** C6: invalid process ids *)

(** C6.  For every [pid <= 0], [getProcessStats] returns
    [{0.0, 0.0, 0.0}] and the cache is neither read (the result is the same
    for every cache and every observation) nor written (the cache after
    the call is the cache before it). *)
Theorem getProcessStats_invalid_pid p pid o cache :
  pid <= 0 ->
  getProcessStats p pid o cache =
    (mkStats (S754_zero false) (S754_zero false) (S754_zero false), cache) /\
  forall o' cache',
    (getProcessStats p pid o' cache').1 = (getProcessStats p pid o cache).1.
Proof.
  intros Hpid. split.
  - by apply getProcessStats_nonpositive.
  - intros o' cache'. by rewrite !getProcessStats_nonpositive.
Qed.

Lemma getProcessStats_invalid_pid_witness :
  getProcessStats Linux (-1) (obs_live 300 3000) {[ 7 := (of_Z 2, 1000) ]} =
    (mkStats (S754_zero false) (S754_zero false) (S754_zero false),
     {[ 7 := (of_Z 2, 1000) ]}).
Proof.
  apply (getProcessStats_invalid_pid Linux (-1) (obs_live 300 3000)
           {[ 7 := (of_Z 2, 1000) ]}).
  lia.
Defined.

(** ** C10: frame *)

(** C10.  A call of [getProcessStats] changes at most the cache entry of
    its own [pid]: every other key maps to the same pair before and after
    the call, and for [pid <= 0] the whole cache is unchanged. *)
Theorem getProcessStats_frame p pid o (cache : Cache) :
  (forall k, k <> pid ->
     (getProcessStats p pid o cache).2 !! k = cache !! k) /\
  (pid <= 0 -> (getProcessStats p pid o cache).2 = cache).
Proof.
  split.
  - intros k Hk. rewrite getProcessStats_cache.
    destruct ((0 <? pid) && reaches_update p o); [|reflexivity].
    by rewrite lookup_insert_ne.
  - intros Hpid. by rewrite getProcessStats_nonpositive.
Qed.

Lemma getProcessStats_frame_witness :
  (getProcessStats Linux 7 (obs_live 300 3000) {[ 3 := (of_Z 2, 1000) ]}).2 !! 3 =
    ({[ 3 := (of_Z 2, 1000) ]} : Cache) !! 3 /\
  (getProcessStats Linux 0 (obs_live 300 3000) {[ 3 := (of_Z 2, 1000) ]}).2 =
    {[ 3 := (of_Z 2, 1000) ]}.
Proof.
  split.
  - apply (proj1 (getProcessStats_frame Linux 7 (obs_live 300 3000)
                    {[ 3 := (of_Z 2, 1000) ]})).
    lia.
  - apply (proj2 (getProcessStats_frame Linux 0 (obs_live 300 3000)
                    {[ 3 := (of_Z 2, 1000) ]})).
    lia.
Defined.

(** ** The batch operation *)

Lemma elem_of_activePids (processes : Processes) k :
  k ∈ activePids processes <-> k ∈ processes.*2.
Proof. unfold activePids. apply elem_of_list_to_set. Qed.

Lemma evict_stale_lookup (active : gset Z) (cache : Cache) k :
  evict_stale active cache !! k =
    if decide (k ∈ active) then cache !! k else None.
Proof.
  unfold evict_stale. rewrite map_lookup_filter.
  destruct (cache !! k) as [x|]; simpl.
  - destruct (decide (k ∈ active)) as [Hin|Hout].
    + rewrite option_guard_True; done.
    + rewrite option_guard_False; done.
  - by destruct (decide (k ∈ active)).
Qed.

Lemma evict_stale_idemp (active : gset Z) (cache : Cache) :
  evict_stale active (evict_stale active cache) = evict_stale active cache.
Proof.
  apply map_eq. intros k. rewrite !evict_stale_lookup.
  by destruct (decide (k ∈ active)).
Qed.

Lemma loop_body_invalid p o name pid st :
  pid <= 0 ->
  loop_body p o (name, pid) st =
    mkLoop (modulesArray st) (logged st ++ [Warning_invalid_pid name])
           (previous_cpu_times st).
Proof.
  intros Hpid. unfold loop_body. simpl.
  destruct (Z.leb_spec pid 0); [reflexivity | lia].
Qed.

Lemma loop_body_valid p o name pid st :
  0 < pid ->
  loop_body p o (name, pid) st =
    mkLoop
      (modulesArray st ++
         [moduleObj name (getProcessStats p pid o (previous_cpu_times st)).1])
      (logged st ++
         [Debug_module_stats name
            (getProcessStats p pid o (previous_cpu_times st)).1])
      (getProcessStats p pid o (previous_cpu_times st)).2.
Proof.
  intros Hpid. unfold loop_body. simpl.
  destruct (Z.leb_spec pid 0); [lia | reflexivity].
Qed.

Lemma loop_body_cache_other p o entry st k :
  k <> entry.2 ->
  previous_cpu_times (loop_body p o entry st) !! k = previous_cpu_times st !! k.
Proof.
  intros Hk. unfold loop_body.
  destruct (entry.2 <=? 0); simpl; [reflexivity|].
  rewrite getProcessStats_cache.
  destruct ((0 <? entry.2) && reaches_update p o); [|reflexivity].
  by rewrite lookup_insert_ne.
Qed.

Lemma sample_loop_cache_other p (processes : Processes) :
  forall w st k,
    k ∉ processes.*2 ->
    previous_cpu_times (sample_loop p w processes st) !! k =
      previous_cpu_times st !! k.
Proof.
  induction processes as [|entry rest IH]; intros w st k Hk; [reflexivity|].
  simpl in *. apply not_elem_of_cons in Hk as [Hne Hrest].
  rewrite IH by done. by apply loop_body_cache_other.
Qed.

Lemma collect_modules_cache_stale p w processes cache k :
  k ∉ processes.*2 ->
  previous_cpu_times (collect_modules p w processes cache) !! k = None.
Proof.
  intros Hk. unfold collect_modules.
  rewrite sample_loop_cache_other by done. simpl.
  rewrite evict_stale_lookup, decide_False; [done|].
  by rewrite elem_of_activePids.
Qed.

Lemma collect_modules_evicted p w processes cache :
  collect_modules p w processes cache =
    collect_modules p w processes (evict_stale (activePids processes) cache).
Proof.
  unfold collect_modules, loop_start. by rewrite evict_stale_idemp.
Qed.

(** ** C2: eviction *)

(** C2.  Every call of [getModuleStats] first removes from the cache every
    entry whose key is not a pid of the input mapping (and keeps the
    others), and samples from the cache so reduced; after the call no such
    key has an entry.  Hence,
    after a batch that includes pid [P] and a later batch that does not,
    [getProcessStats P] behaves as a first call and returns
    [cpuPercent = 0.0]. *)
Theorem getModuleStats_evicts number quoted p w processes (cache : Cache) :
  let run := getModuleStats number quoted p w processes cache in
  (forall k, k ∉ processes.*2 ->
     evict_stale (activePids processes) cache !! k = None) /\
  (forall k, k ∈ processes.*2 ->
     evict_stale (activePids processes) cache !! k = cache !! k) /\
  run = getModuleStats number quoted p w processes
          (evict_stale (activePids processes) cache) /\
  (forall k, k ∉ processes.*2 -> run.2 !! k = None) /\
  (forall w0 processes0 P o,
     P ∈ processes0.*2 -> P ∉ processes.*2 ->
     let cache0 := (getModuleStats number quoted p w0 processes0 cache).2 in
     let cache1 := (getModuleStats number quoted p w processes cache0).2 in
     cache1 !! P = None /\
     cpuPercent (getProcessStats p P o cache1).1 = zero).
Proof.
  intros run. subst run. unfold getModuleStats. simpl. repeat split.
  - intros k Hk. rewrite evict_stale_lookup, decide_False; [done|].
    by rewrite elem_of_activePids.
  - intros k Hk. rewrite evict_stale_lookup, decide_True; [done|].
    by rewrite elem_of_activePids.
  - by rewrite <- collect_modules_evicted.
  - intros k Hk. by apply collect_modules_cache_stale.
  - by apply collect_modules_cache_stale.
  - apply getProcessStats_first_call. by apply collect_modules_cache_stale.
Qed.

Lemma getModuleStats_evicts_witness :
  cpuPercent
    (getProcessStats Linux 5 (obs_live 900 9000)
       (getModuleStats (fun _ => "0") (fun s => s) Linux
          (fun _ => obs_live 400 4000) [("b", 9)]
          (getModuleStats (fun _ => "0") (fun s => s) Linux
             (fun _ => obs_live 300 3000) [("a", 5)] ∅).2).2).1 = zero.
Proof.
  apply (proj2 (proj2 (proj2 (proj2 (getModuleStats_evicts (fun _ => "0")
           (fun s => s) Linux (fun _ => obs_live 400 4000) [("b", 9)] ∅))))
           (fun _ => obs_live 300 3000) [("a", 5)] 5 (obs_live 900 9000)).
  - simpl. constructor.
  - simpl. apply not_elem_of_cons. split; [lia | apply not_elem_of_nil].
Defined.

(** ** C7: one array element per valid entry *)

Lemma indexed_cons entry (rest : Processes) :
  indexed (entry :: rest) = (0%nat, entry) :: (later <$> indexed rest).
Proof.
  unfold indexed. rewrite imap_cons. f_equal.
  rewrite fmap_imap. by apply imap_ext.
Qed.

Lemma filter_valid_later (l : list (nat * (string * Z))) :
  filter (fun ie => valid_pid ie.2.2) (later <$> l) =
    later <$> filter (fun ie => valid_pid ie.2.2) l.
Proof.
  induction l as [|ie l IH]; [reflexivity|].
  rewrite fmap_cons, !filter_cons. simpl.
  destruct (decide (valid_pid ie.2.2)); rewrite IH; reflexivity.
Qed.

Lemma appended_later p w entry rest st ie :
  appended p w (entry :: rest) st (later ie) =
    appended p (fun i => w (S i)) rest (loop_body p (w 0%nat) entry st) ie.
Proof. reflexivity. Qed.

Lemma sample_loop_array p (processes : Processes) :
  forall w st,
    modulesArray (sample_loop p w processes st) =
      modulesArray st ++
      (appended p w processes st <$>
         filter (fun ie => valid_pid ie.2.2) (indexed processes)).
Proof.
  induction processes as [|[name pid] rest IH]; intros w st.
  - simpl. by rewrite app_nil_r.
  - simpl. rewrite IH, indexed_cons, filter_cons, filter_valid_later.
    cbn [snd].
    assert (Hext : appended p w ((name, pid) :: rest) st ∘ later =
                   appended p (fun i => w (S i)) rest
                     (loop_body p (w 0%nat) (name, pid) st)) by reflexivity.
    destruct (decide (valid_pid pid)) as [Hv|Hv]; unfold valid_pid in Hv.
    + rewrite fmap_cons, <- list_fmap_compose, Hext.
      rewrite loop_body_valid by done. cbn [modulesArray].
      rewrite <- app_assoc. reflexivity.
    + rewrite <- list_fmap_compose, Hext.
      rewrite loop_body_invalid by lia. reflexivity.
Qed.

Lemma sample_loop_warnings p (processes : Processes) :
  forall w st,
    omap warned_name (logged (sample_loop p w processes st)) =
      omap warned_name (logged st) ++
      (fst <$> filter (fun e => ~ valid_pid e.2) processes).
Proof.
  induction processes as [|[name pid] rest IH]; intros w st.
  - simpl. by rewrite app_nil_r.
  - simpl. rewrite IH, filter_cons. simpl.
    destruct (decide (~ valid_pid pid)) as [Hv|Hv]; unfold valid_pid in Hv.
    + rewrite loop_body_invalid by lia. simpl.
      rewrite omap_app, <- app_assoc. reflexivity.
    + rewrite loop_body_valid by lia. simpl.
      rewrite omap_app. simpl. by rewrite app_nil_r.
Qed.

Lemma moduleObj_members name stats :
  moduleObj name stats =
    [("cpu_percent", QJsonDouble (cpuPercent stats));
     ("cpu_time_seconds", QJsonDouble (cpuTimeSeconds stats));
     ("memory_mb", QJsonDouble (memoryMB stats));
     ("name", QJsonString name)].
Proof. reflexivity. Qed.

Lemma appended_name p w processes st ie :
  QJsonObject_value "name" (appended p w processes st ie) =
    Some (QJsonString ie.2.1).
Proof. reflexivity. Qed.

Lemma filter_indexed_names (processes : Processes) :
  (fun ie : nat * (string * Z) => ie.2) <$>
     filter (fun ie => valid_pid ie.2.2) (indexed processes) =
  filter (fun e => valid_pid e.2) processes.
Proof.
  induction processes as [|entry rest IH]; [reflexivity|].
  rewrite indexed_cons, !filter_cons, filter_valid_later. cbn [snd].
  destruct (decide (valid_pid entry.2));
    rewrite ?fmap_cons, <- list_fmap_compose; cbn [snd];
    [f_equal|]; exact IH.
Qed.

Lemma collect_modules_names p w processes cache :
  QJsonObject_value "name" <$> modulesArray (collect_modules p w processes cache) =
    (fun e => Some (QJsonString e.1)) <$>
      filter (fun e => valid_pid e.2) processes.
Proof.
  unfold collect_modules. rewrite sample_loop_array. simpl.
  rewrite <- filter_indexed_names, <- !list_fmap_compose.
  apply list_fmap_ext. intros i ie _. reflexivity.
Qed.

Lemma NoDup_fst_functional {A B} (l : list (A * B)) x y1 y2 :
  NoDup l.*1 -> (x, y1) ∈ l -> (x, y2) ∈ l -> y1 = y2.
Proof.
  induction l as [|[a b] l IH]; simpl; intros Hnd H1 H2.
  - by apply elem_of_nil in H1.
  - apply NoDup_cons in Hnd as [Hnotin Hnd].
    apply elem_of_cons in H1 as [H1|H1]; apply elem_of_cons in H2 as [H2|H2].
    + congruence.
    + injection H1 as -> ->. exfalso. apply Hnotin.
      by apply (list_elem_of_fmap_2 fst) in H2.
    + injection H2 as -> ->. exfalso. apply Hnotin.
      by apply (list_elem_of_fmap_2 fst) in H1.
    + by apply IH.
Qed.

(** C7.  For every input mapping, the array that [getModuleStats]
    serialises has exactly one element for each entry whose pid is
    positive, in traversal order: the object made of the entry's name and
    of the three fields that [getProcessStats] returned for its pid in that
    iteration.  It has no element for a name whose pid is not positive;
    such an entry only adds a warning to the log, and leaves the array and
    the cache as they were. *)
Theorem getModuleStats_entries number quoted p w processes cache :
  let st := collect_modules p w processes cache in
  (getModuleStats number quoted p w processes cache).1.1 =
    toJson_Compact number quoted (modulesArray st) /\
  modulesArray st =
    (fun ie : nat * (string * Z) =>
       moduleObj ie.2.1
         (getProcessStats p ie.2.2 (w ie.1)
            (cache_before p w processes (loop_start processes cache) ie.1)).1)
    <$> filter (fun ie => valid_pid ie.2.2) (indexed processes) /\
  (forall name stats,
     moduleObj name stats =
       [("cpu_percent", QJsonDouble (cpuPercent stats));
        ("cpu_time_seconds", QJsonDouble (cpuTimeSeconds stats));
        ("memory_mb", QJsonDouble (memoryMB stats));
        ("name", QJsonString name)]) /\
  QJsonObject_value "name" <$> modulesArray st =
    (fun e => Some (QJsonString e.1)) <$>
      filter (fun e => valid_pid e.2) processes /\
  omap warned_name (logged st) =
    fst <$> filter (fun e => ~ valid_pid e.2) processes /\
  (forall o name pid s,
     pid <= 0 ->
     loop_body p o (name, pid) s =
       mkLoop (modulesArray s) (logged s ++ [Warning_invalid_pid name])
              (previous_cpu_times s)) /\
  (NoDup processes.*1 ->
   forall name pid obj,
     (name, pid) ∈ processes -> pid <= 0 -> obj ∈ modulesArray st ->
     QJsonObject_value "name" obj <> Some (QJsonString name)).
Proof.
  intros st. subst st. repeat split.
  - unfold collect_modules. by rewrite sample_loop_array.
  - apply collect_modules_names.
  - unfold collect_modules. by rewrite sample_loop_warnings.
  - intros o name pid s Hpid. by apply loop_body_invalid.
  - intros Hnodup name pid obj Hin Hpid Hobj Hname.
    apply (list_elem_of_fmap_2 (QJsonObject_value "name")) in Hobj.
    rewrite collect_modules_names, Hname in Hobj.
    apply list_elem_of_fmap in Hobj as ([name' pid'] & Heq & Hin').
    apply list_elem_of_filter in Hin' as [Hvalid Hin'].
    simpl in Heq, Hvalid. injection Heq as ->. unfold valid_pid in Hvalid.
    pose proof (NoDup_fst_functional _ _ _ _ Hnodup Hin Hin'). lia.
Qed.

Lemma getModuleStats_entries_witness :
  loop_body Linux (obs_live 300 3000) ("bad2", 0) (loop_start [] ∅) =
    mkLoop [] [Debug_called; Warning_invalid_pid "bad2"] ∅ /\
  QJsonObject_value "name"
    (moduleObj "valid" (getProcessStats Linux 5 (obs_live 300 3000) ∅).1) <>
    Some (QJsonString "bad1").
Proof.
  pose proof (getModuleStats_entries (fun _ => "0") (fun s => s) Linux
                (fun _ => obs_live 300 3000)
                [("valid", 5); ("bad1", -1); ("bad2", 0)] ∅) as H.
  split.
  - apply (proj1 (proj2 (proj2 (proj2 (proj2 (proj2 H)))))). lia.
  - apply (proj2 (proj2 (proj2 (proj2 (proj2 (proj2 H))))))
      with (pid := -1).
    + simpl. repeat constructor; rewrite ?elem_of_cons;
        rewrite ?elem_of_nil; intuition discriminate.
    + right. left.
    + lia.
    + left.
Defined.

(** ** C8: the serialised output *)

Lemma collect_modules_length p w processes cache :
  length (modulesArray (collect_modules p w processes cache)) =
    length (filter (fun e => valid_pid e.2) processes).
Proof.
  rewrite <- (length_fmap (QJsonObject_value "name")).
  by rewrite collect_modules_names, length_fmap.
Qed.

Lemma collect_modules_objects p w processes cache :
  Forall (fun obj => exists name stats, obj = moduleObj name stats)
    (modulesArray (collect_modules p w processes cache)).
Proof.
  unfold collect_modules. rewrite sample_loop_array. simpl.
  apply Forall_fmap, Forall_forall. intros ie _. by eexists _, _.
Qed.

(** C8.  The buffer returned by [getModuleStats] is the compact text of a
    JSON array: an opening bracket, the objects separated by commas without
    white space, a closing bracket.  There is one object per entry that was
    sampled, and each object has exactly the four keys ["name"],
    ["cpu_percent"], ["cpu_time_seconds"] and ["memory_mb"].  For the empty
    mapping the buffer is ["[]"]. *)
Theorem getModuleStats_json number quoted p w processes cache :
  let arr := modulesArray (collect_modules p w processes cache) in
  let out := (getModuleStats number quoted p w processes cache).1.1 in
  out = "[" +:+ String.concat "," (object_text number quoted <$> arr) +:+ "]" /\
  length arr = length (filter (fun e => valid_pid e.2) processes) /\
  Forall
    (fun obj =>
       QJsonObject_keys obj ≡ₚ
         ["name"; "cpu_percent"; "cpu_time_seconds"; "memory_mb"] /\
       exists name stats,
         QJsonObject_value "name" obj = Some (QJsonString name) /\
         QJsonObject_value "cpu_percent" obj =
           Some (QJsonDouble (cpuPercent stats)) /\
         QJsonObject_value "cpu_time_seconds" obj =
           Some (QJsonDouble (cpuTimeSeconds stats)) /\
         QJsonObject_value "memory_mb" obj =
           Some (QJsonDouble (memoryMB stats)) /\
         object_text number quoted obj =
           "{" +:+
           String.concat ","
             [quoted "cpu_percent" +:+ ":" +:+ number (cpuPercent stats);
              quoted "cpu_time_seconds" +:+ ":" +:+ number (cpuTimeSeconds stats);
              quoted "memory_mb" +:+ ":" +:+ number (memoryMB stats);
              quoted "name" +:+ ":" +:+ quoted name] +:+
           "}")
    arr /\
  (getModuleStats number quoted p w [] cache).1.1 = "[]".
Proof.
  intros arr out. subst arr out. repeat split.
  - apply collect_modules_length.
  - eapply Forall_impl; [apply collect_modules_objects|].
    intros obj (name & stats & ->). split.
    + rewrite moduleObj_members. unfold QJsonObject_keys. simpl.
      symmetry. apply Permutation_cons_append.
    + exists name, stats. repeat split.
Qed.

(** ** Failed lookups are answered with zeroes *)

Lemma getProcessStats_lookup_failed p pid o cache :
  taskinfo o = None -> stat_times o = None -> vm_rss_kb o = None ->
  cpuTimeSeconds (getProcessStats p pid o cache).1 = zero /\
  memoryMB (getProcessStats p pid o cache).1 = zero.
Proof.
  intros Hti Hstat Hrss. unfold getProcessStats.
  destruct (pid <=? 0); [done|].
  destruct p.
  - by rewrite Hti.
  - unfold linux_cpu_time, linux_memory_mb. by rewrite Hstat, Hrss.
Qed.

(** ** C4: which pids have a cache entry *)

Lemma cache_after_snoc p history op :
  cache_after p (history ++ [op]) = perform p (cache_after p history) op.
Proof. unfold cache_after. by rewrite foldl_app. Qed.

Lemma all_samplings_snoc history op :
  all_samplings (history ++ [op]) = all_samplings history ++ samplings op.
Proof.
  unfold all_samplings. rewrite fmap_app, concat_app. simpl.
  by rewrite app_nil_r.
Qed.

Lemma getProcessStats_entry_origin p pid o (cache : Cache) k :
  is_Some ((getProcessStats p pid o cache).2 !! k) ->
  is_Some (cache !! k) \/ (k = pid /\ 0 < pid /\ reaches_update p o = true).
Proof.
  rewrite getProcessStats_cache.
  destruct (Z.ltb_spec 0 pid) as [Hpos|Hle]; simpl; [|by left].
  destruct (reaches_update p o); [|by left].
  destruct (decide (k = pid)) as [->|Hne].
  - by right.
  - rewrite lookup_insert_ne by done. by left.
Qed.

Lemma sample_loop_entry_origin p (processes : Processes) :
  forall w st k,
    is_Some (previous_cpu_times (sample_loop p w processes st) !! k) ->
    is_Some (previous_cpu_times st !! k) \/
    exists ie,
      ie ∈ filter (fun ie => valid_pid ie.2.2) (indexed processes) /\
      ie.2.2 = k /\ reaches_update p (w ie.1) = true.
Proof.
  induction processes as [|[name pid] rest IH]; intros w st k Hk.
  - by left.
  - simpl in Hk. apply IH in Hk as [Hk|(ie & Hin & Hpid & Hreach)].
    + unfold loop_body in Hk. simpl in Hk.
      destruct (Z.leb_spec pid 0) as [Hle|Hpos]; simpl in Hk; [by left|].
      apply getProcessStats_entry_origin in Hk as [Hk|(-> & _ & Hreach)];
        [by left|].
      right. exists (0%nat, (name, pid)). split; [|done].
      rewrite indexed_cons. apply list_elem_of_filter. split; [done|left].
    + right. exists (later ie). split; [|done].
      rewrite indexed_cons, filter_cons, filter_valid_later.
      apply (list_elem_of_fmap_2 later) in Hin.
      destruct (decide _); [by right | done].
Qed.

Lemma evict_stale_is_Some (active : gset Z) (cache : Cache) k :
  is_Some (evict_stale active cache !! k) -> is_Some (cache !! k).
Proof.
  rewrite evict_stale_lookup. destruct (decide (k ∈ active)); [done|].
  by intros [? ?].
Qed.

Lemma perform_entry_origin p (cache : Cache) op k :
  is_Some (perform p cache op !! k) ->
  is_Some (cache !! k) \/
  (0 < k /\ exists o, (k, o) ∈ samplings op /\ reaches_update p o = true).
Proof.
  destruct op as [pid o|w processes|]; simpl.
  - intros Hk.
    apply getProcessStats_entry_origin in Hk as [Hk|(-> & Hpos & Hreach)];
      [by left|].
    right. split; [done|]. exists o. split; [|done].
    destruct (Z.ltb_spec 0 pid); [left | lia].
  - unfold collect_modules. intros Hk.
    apply sample_loop_entry_origin in Hk as [Hk|(ie & Hin & Hpid & Hreach)].
    + left. simpl in Hk. by apply evict_stale_is_Some in Hk.
    + right. pose proof Hin as Hvalid.
      apply list_elem_of_filter in Hvalid as [Hvalid _].
      unfold valid_pid in Hvalid. split; [lia|].
      exists (w ie.1). split; [|done].
      apply list_elem_of_fmap. exists ie. by rewrite <- Hpid.
  - unfold clearHistory. rewrite lookup_empty. by intros [? ?].
Qed.

Lemma cache_after_entry_origin p history :
  forall k,
    is_Some (cache_after p history !! k) ->
    0 < k /\
    exists o, (k, o) ∈ all_samplings history /\ reaches_update p o = true.
Proof.
  induction history as [|op history IH] using rev_ind; intros k Hk.
  - unfold cache_after in Hk. simpl in Hk. rewrite lookup_empty in Hk.
    by destruct Hk.
  - rewrite cache_after_snoc in Hk. rewrite all_samplings_snoc.
    apply perform_entry_origin in Hk as [Hk|(Hpos & o & Hin & Hreach)].
    + destruct (IH k Hk) as (Hpos & o & Hin & Hreach).
      split; [done|]. exists o. split; [|done].
      apply elem_of_app. by left.
    + split; [done|]. exists o. split; [|done].
      apply elem_of_app. by right.
Qed.

(** C4, as amended.  In every state reached from the empty cache by
    [getProcessStats], [getModuleStats] and [clearHistory], a cache entry
    exists for a pid only if that pid is positive and the platform body of
    [getProcessStats] has run for it at least once.  On macOS that run read
    the counters of the process ([proc_pidinfo] succeeded), so there the
    invariant holds as the specification words it; on Linux the run may have
    read nothing. *)
Theorem cache_entries_were_sampled p history pid :
  is_Some (cache_after p history !! pid) ->
  0 < pid /\
  exists o,
    (pid, o) ∈ all_samplings history /\
    (p = MacOS -> counters_read p o = true).
Proof.
  intros Hk.
  destruct (cache_after_entry_origin p history pid Hk)
    as (Hpos & o & Hin & Hreach).
  split; [done|]. exists o. split; [done|].
  intros ->. exact Hreach.
Qed.

Lemma cache_entries_were_sampled_witness :
  0 < 7 /\
  exists o,
    (7, o) ∈ all_samplings
               [SampleBatch (fun _ => obs_live 300 3000) [("a", 7); ("b", 0)]] /\
    (MacOS = MacOS -> counters_read MacOS o = true).
Proof.
  apply (cache_entries_were_sampled MacOS
           [SampleBatch (fun _ => obs_live 300 3000) [("a", 7); ("b", 0)]] 7).
  vm_compute. eexists. reflexivity.
Defined.

(** The invariant as first stated fails on Linux: sampling pid 4242, whose
    [/proc] files cannot be read, creates a cache entry although no
    sampling of 4242 has read a counter. *)
Lemma cache_entry_without_successful_sampling :
  is_Some (cache_after Linux [SampleOne 4242 (obs_lookup_failed 1000)] !! 4242) /\
  (forall o,
     (4242, o) ∈ all_samplings [SampleOne 4242 (obs_lookup_failed 1000)] ->
     counters_read Linux o = false) /\
  ~ entries_only_for_sampled Linux.
Proof.
  assert (Hentry : is_Some
            (cache_after Linux [SampleOne 4242 (obs_lookup_failed 1000)] !! 4242)).
  { vm_compute. eexists. reflexivity. }
  assert (Hnone : forall o,
            (4242, o) ∈ all_samplings [SampleOne 4242 (obs_lookup_failed 1000)] ->
            counters_read Linux o = false).
  { intros o Hin. unfold all_samplings in Hin. simpl in Hin.
    apply list_elem_of_singleton in Hin. by injection Hin as ->. }
  split; [exact Hentry|]. split; [exact Hnone|].
  intros Hclaim. destruct (Hclaim _ _ Hentry) as (o & Hin & Hread).
  rewrite (Hnone o Hin) in Hread. discriminate.
Qed.

(** ** Binary64 arithmetic: signs, canonical results, finiteness *)

(** *** Number of binary digits *)

Lemma digits2_pos_bounds p :
  2 ^ (Zpos (digits2_pos p) - 1) <= Zpos p < 2 ^ Zpos (digits2_pos p).
Proof.
  induction p as [p IH|p IH|]; simpl digits2_pos.
  - rewrite Pos2Z.inj_succ, Pos2Z.inj_xI.
    replace (Z.succ (Zpos (digits2_pos p)) - 1)
      with (Z.succ (Zpos (digits2_pos p) - 1)) by lia.
    rewrite !Z.pow_succ_r by lia.
    destruct IH as [Hlo Hhi]. revert Hlo Hhi.
    generalize (2 ^ (Zpos (digits2_pos p) - 1)) (2 ^ Zpos (digits2_pos p)).
    intros; lia.
  - rewrite Pos2Z.inj_succ. change (Zpos p~0) with (2 * Zpos p).
    replace (Z.succ (Zpos (digits2_pos p)) - 1)
      with (Z.succ (Zpos (digits2_pos p) - 1)) by lia.
    rewrite !Z.pow_succ_r by lia.
    destruct IH as [Hlo Hhi]. revert Hlo Hhi.
    generalize (2 ^ (Zpos (digits2_pos p) - 1)) (2 ^ Zpos (digits2_pos p)).
    intros; lia.
  - simpl. lia.
Qed.

Lemma Zdigits2_nonneg m : 0 <= Zdigits2 m.
Proof. destruct m; simpl; lia. Qed.

Lemma Zdigits2_bounds m :
  0 < m -> 2 ^ (Zdigits2 m - 1) <= m < 2 ^ Zdigits2 m.
Proof.
  destruct m as [|p|p]; try lia. intros _. apply digits2_pos_bounds.
Qed.

Lemma Zdigits2_pos m : 0 < m -> 0 < Zdigits2 m.
Proof. destruct m; simpl; lia. Qed.

(** The digit count is determined by the power-of-two bracket. *)
Lemma Zdigits2_unique m k :
  0 < k -> 2 ^ (k - 1) <= m < 2 ^ k -> Zdigits2 m = k.
Proof.
  intros Hk [Hlo Hhi].
  assert (Hm : 0 < m) by (pose proof (Z.pow_pos_nonneg 2 (k - 1)); lia).
  pose proof (Zdigits2_bounds m Hm) as [Hlo' Hhi'].
  pose proof (Zdigits2_pos m Hm) as Hd.
  destruct (Z.lt_trichotomy (Zdigits2 m) k) as [Hlt|[Heq|Hgt]]; [|exact Heq|].
  - assert (2 ^ Zdigits2 m <= 2 ^ (k - 1)) by (apply Z.pow_le_mono_r; lia). lia.
  - assert (2 ^ k <= 2 ^ (Zdigits2 m - 1)) by (apply Z.pow_le_mono_r; lia). lia.
Qed.

Lemma Zdigits2_le a b : 0 <= a <= b -> Zdigits2 a <= Zdigits2 b.
Proof.
  intros [Ha Hab].
  destruct (Z.eq_dec a 0) as [->|Hne]; [apply Zdigits2_nonneg|].
  assert (Ha' : 0 < a) by lia. assert (Hb' : 0 < b) by lia.
  pose proof (Zdigits2_bounds a Ha') as [Hlo _].
  pose proof (Zdigits2_bounds b Hb') as [_ Hhi].
  destruct (Z.le_gt_cases (Zdigits2 a) (Zdigits2 b)) as [Hle|Hgt]; [exact Hle|].
  assert (2 ^ Zdigits2 b <= 2 ^ (Zdigits2 a - 1)) by (apply Z.pow_le_mono_r; lia).
  lia.
Qed.

Lemma Zdigits2_succ m : 0 <= m -> Zdigits2 (m + 1) <= Zdigits2 m + 1.
Proof.
  intros Hm. destruct (Z.eq_dec m 0) as [->|Hne]; [simpl; lia|].
  assert (Hm' : 0 < m) by lia.
  pose proof (Zdigits2_bounds m Hm') as [_ Hhi].
  pose proof (Zdigits2_pos m Hm') as Hd.
  assert (Hm1 : 0 < m + 1) by lia.
  pose proof (Zdigits2_bounds (m + 1) Hm1) as [Hlo _].
  destruct (Z.le_gt_cases (Zdigits2 (m + 1)) (Zdigits2 m + 1)) as [Hle|Hgt]; [exact Hle|].
  assert (2 ^ (Zdigits2 m + 1) <= 2 ^ (Zdigits2 (m + 1) - 1)) by (apply Z.pow_le_mono_r; lia).
  rewrite Z.pow_add_r in H by lia. lia.
Qed.

Lemma Zdigits2_mul_pow2 m s :
  0 < m -> 0 <= s -> Zdigits2 (m * 2 ^ s) = Zdigits2 m + s.
Proof.
  intros Hm Hs. pose proof (Zdigits2_bounds m Hm) as [Hlo Hhi].
  pose proof (Zdigits2_pos m Hm) as Hd.
  apply Zdigits2_unique; [lia|].
  replace (Zdigits2 m + s - 1) with (Zdigits2 m - 1 + s) by lia.
  rewrite !Z.pow_add_r by lia.
  assert (0 < 2 ^ s) by (apply Z.pow_pos_nonneg; lia). nia.
Qed.

(** *** Shifting right *)

Lemma shr_1_digits mrs :
  0 <= shr_m mrs ->
  0 <= shr_m (shr_1 mrs) /\
  Zdigits2 (shr_m (shr_1 mrs)) = Z.max (Zdigits2 (shr_m mrs) - 1) 0.
Proof.
  destruct mrs as [m r s]. cbn [shr_m]. intros Hm.
  destruct m as [|[p|p|]|p];
    cbn [shr_1 shr_m Zdigits2 digits2_pos];
    rewrite ?Pos2Z.inj_succ; lia.
Qed.

Lemma iter_shr_1_digits p :
  forall mrs,
    0 <= shr_m mrs ->
    0 <= shr_m (SpecFloat.iter_pos shr_1 p mrs) /\
    Zdigits2 (shr_m (SpecFloat.iter_pos shr_1 p mrs)) =
      Z.max (Zdigits2 (shr_m mrs) - Zpos p) 0.
Proof.
  induction p as [p IH|p IH|]; intros mrs Hm; simpl SpecFloat.iter_pos.
  - destruct (shr_1_digits mrs Hm) as [H1 D1].
    destruct (IH _ H1) as [H2 D2]. destruct (IH _ H2) as [H3 D3].
    split; [exact H3|]. rewrite D3, D2, D1. lia.
  - destruct (IH _ Hm) as [H2 D2]. destruct (IH _ H2) as [H3 D3].
    split; [exact H3|]. rewrite D3, D2. lia.
  - apply shr_1_digits. exact Hm.
Qed.

Lemma shr_record_of_loc_m m l : shr_m (shr_record_of_loc m l) = m.
Proof. destruct l as [|[]]; reflexivity. Qed.

(** The effect of [shr] on the exponent and on the number of digits. *)
Lemma shr_digits mrs e n :
  0 <= shr_m mrs ->
  0 <= shr_m (shr mrs e n).1 /\
  (shr mrs e n).2 = e + Z.max n 0 /\
  Zdigits2 (shr_m (shr mrs e n).1) =
    Z.max (Zdigits2 (shr_m mrs) - Z.max n 0) 0.
Proof.
  intros Hm. pose proof (Zdigits2_nonneg (shr_m mrs)) as Hd.
  destruct n as [|p|p]; cbn [shr fst snd].
  - repeat split; lia.
  - destruct (iter_shr_1_digits p mrs Hm) as [H D].
    rewrite D. repeat split; lia.
  - repeat split; lia.
Qed.

(** *** Rounding *)

Lemma round_nearest_even_bounds m l :
  m <= round_nearest_even m l <= m + 1.
Proof.
  destruct l as [|[]]; cbn [round_nearest_even]; try lia.
  destruct (Z.even m); lia.
Qed.

Lemma shr_fexp_digits m e l :
  0 <= m ->
  let n := fexp prec emax (Zdigits2 m + e) - e in
  0 <= shr_m (shr_fexp prec emax m e l).1 /\
  (shr_fexp prec emax m e l).2 = e + Z.max n 0 /\
  Zdigits2 (shr_m (shr_fexp prec emax m e l).1) =
    Z.max (Zdigits2 m - Z.max n 0) 0.
Proof.
  intros Hm n. unfold shr_fexp. fold n.
  pose proof (shr_digits (shr_record_of_loc m l) e n) as H.
  rewrite shr_record_of_loc_m in H. by apply H.
Qed.

Lemma binary_round_aux_rounded s m e l :
  0 <= m ->
  rounded s (Z.max (Zdigits2 m + e) (Z.max e (emin prec emax)))
    (e <=? fexp prec emax (Zdigits2 m + e))
    (binary_round_aux prec emax s m e l).
Proof.
  intros Hm. unfold binary_round_aux.
  pose proof (shr_fexp_digits m e l Hm) as (Hm1 & He1 & Hd1).
  destruct (shr_fexp prec emax m e l) as [mrs1 e1]. cbn [fst snd] in *.
  set (m2 := round_nearest_even (shr_m mrs1) (loc_of_shr_record mrs1)).
  pose proof (round_nearest_even_bounds (shr_m mrs1) (loc_of_shr_record mrs1))
    as Hm2. fold m2 in Hm2.
  assert (Hm2' : 0 <= m2) by lia.
  pose proof (Zdigits2_le (shr_m mrs1) m2 ltac:(lia)) as Hd2lo.
  pose proof (Zdigits2_le m2 (shr_m mrs1 + 1) ltac:(lia)) as Hd2hi.
  pose proof (Zdigits2_succ (shr_m mrs1) Hm1) as Hsucc.
  pose proof (shr_fexp_digits m2 e1 loc_Exact Hm2') as (Hm3 & He2 & Hd3).
  destruct (shr_fexp prec emax m2 e1 loc_Exact) as [mrs2 e2].
  cbn [fst snd] in *.
  pose proof (Zdigits2_nonneg m) as Hd.
  unfold fexp, emin, prec, emax in *.
  destruct (shr_m mrs2) as [|m'|m'] eqn:Hm'; cbn [rounded].
  all: unfold prec, emax.
  - reflexivity.
  - cbn [Zdigits2] in Hd3.
    destruct (Z.leb_spec e2 (1024 - 53)) as [Hle|Hgt]; cbn [rounded];
      unfold prec, emax.
    + split; [reflexivity|]. split; [lia|]. split; [lia|]. split; [lia|].
      intros Hcanon. apply Z.leb_le in Hcanon.
      unfold canonical_mantissa, fexp, emin. apply Z.eqb_eq. lia.
    + split; [reflexivity | lia].
  - lia.
Qed.

Lemma rounded_weaken s T T' c c' r :
  T <= T' -> (c' = true -> c = true) ->
  rounded s T c r -> rounded s T' c' r.
Proof.
  intros HT Hc. destruct r as [s'|s'| |s' m' e']; cbn [rounded]; try done.
  - intros [-> H]. split; [done | lia].
  - intros (-> & He & HeT & HdT & Hcan). repeat split; try lia.
    intros Hc'. apply Hcan, Hc, Hc'.
Qed.

(** *** Aligning to a smaller exponent *)

Lemma iter_xO_pow2 m d : Zpos (Pos.iter xO m d) = Zpos m * 2 ^ Zpos d.
Proof.
  induction d as [|d IH] using Pos.peano_ind.
  - simpl. lia.
  - rewrite Pos.iter_succ, Pos2Z.inj_succ, Z.pow_succ_r by lia.
    change (Zpos (Pos.iter xO m d)~0) with (2 * Zpos (Pos.iter xO m d)).
    rewrite IH. lia.
Qed.

Lemma shl_align_spec m e e' :
  (shl_align m e e').2 = Z.min e e' /\
  Zpos (shl_align m e e').1 = Zpos m * 2 ^ (e - Z.min e e').
Proof.
  unfold shl_align. destruct (e' - e) as [|d|d] eqn:Hd; cbn [fst snd].
  - replace (Z.min e e') with e by lia. rewrite Z.sub_diag. simpl. lia.
  - replace (Z.min e e') with e by lia. rewrite Z.sub_diag. simpl. lia.
  - replace (Z.min e e') with e' by lia. split; [reflexivity|].
    rewrite iter_xO_pow2. f_equal. f_equal. lia.
Qed.

Lemma shl_align_digits m e e' :
  Zdigits2 (Zpos (shl_align m e e').1) + (shl_align m e e').2 =
    Zpos (digits2_pos m) + e.
Proof.
  destruct (shl_align_spec m e e') as [-> ->].
  rewrite Zdigits2_mul_pow2 by lia. simpl. lia.
Qed.

Lemma binary_round_rounded s m e :
  rounded s (Z.max (Zpos (digits2_pos m) + e) (Z.max e (emin prec emax))) true
    (binary_round prec emax s m e).
Proof.
  unfold binary_round.
  pose proof (shl_align_digits m e (fexp prec emax (Zpos (digits2_pos m) + e)))
    as Hd.
  pose proof (shl_align_spec m e (fexp prec emax (Zpos (digits2_pos m) + e)))
    as [He _].
  destruct (shl_align m e (fexp prec emax (Zpos (digits2_pos m) + e)))
    as [mz ez]. cbn [fst snd] in *.
  eapply rounded_weaken;
    [| |apply (binary_round_aux_rounded s (Zpos mz) ez loc_Exact); lia].
  - rewrite Hd. lia.
  - intros _. apply Z.leb_le. rewrite Hd. lia.
Qed.

Lemma binary_normalize_rounded z e :
  z <> 0 ->
  rounded (z <? 0) (Z.max (Zdigits2 z + e) (Z.max e (emin prec emax))) true
    (binary_normalize prec emax z e false).
Proof.
  destruct z as [|m|m]; [done| |]; intros _; apply binary_round_rounded.
Qed.

(** *** Division *)

Lemma Zdigits2_pow2 k : 0 <= k -> Zdigits2 (2 ^ k) = k + 1.
Proof.
  intros Hk. rewrite <- (Z.mul_1_l (2 ^ k)).
  rewrite Zdigits2_mul_pow2 by lia. simpl. lia.
Qed.

Lemma SFdiv_core_binary_spec mx ex my ey :
  let '(q, e', _) := SFdiv_core_binary prec emax (Zpos mx) ex (Zpos my) ey in
  0 <= q /\
  e' <= ex - ey /\
  Zdigits2 q + e' <= Zpos (digits2_pos mx) + ex - ey /\
  e' <= fexp prec emax (Zdigits2 q + e').
Proof.
  unfold SFdiv_core_binary. cbn [Zdigits2].
  set (dx := Zpos (digits2_pos mx)). set (dy := Zpos (digits2_pos my)).
  set (e' := Z.min (fexp prec emax (dx + ex - (dy + ey))) (ex - ey)).
  set (s := ex - ey - e').
  assert (Hs : 0 <= s) by (unfold s, e'; lia).
  set (m' := match s with
             | 0 => Zpos mx
             | Zpos _ => Z.shiftl (Zpos mx) s
             | Zneg _ => 0
             end).
  assert (Hm' : m' = Zpos mx * 2 ^ s).
  { unfold m'. destruct s as [|p|p]; [simpl; lia| |lia].
    by rewrite Z.shiftl_mul_pow2. }
  pose proof (Z_div_mod m' (Zpos my) ltac:(lia)) as Hdiv.
  destruct (Z.div_eucl m' (Zpos my)) as [q r]. destruct Hdiv as [Hq Hr].
  assert (Hpow : 0 < 2 ^ s) by (apply Z.pow_pos_nonneg; lia).
  assert (Hm'pos : 0 < m') by nia.
  assert (Hq0 : 0 <= q) by nia.
  assert (Hqm : q <= m') by nia.
  pose proof (Zdigits2_le q m' ltac:(lia)) as Hdq.
  rewrite Hm', Zdigits2_mul_pow2 in Hdq by lia. cbn [Zdigits2] in Hdq.
  fold dx in Hdq.
  assert (Hlow : dx + s - dy <= Zdigits2 q).
  { destruct (Z.le_gt_cases (dx + s - dy) 0) as [Hle|Hgt].
    - pose proof (Zdigits2_nonneg q). lia.
    - pose proof (digits2_pos_bounds mx) as [Hxlo _].
      pose proof (digits2_pos_bounds my) as [_ Hyhi].
      fold dx in Hxlo. fold dy in Hyhi.
      assert (Hge : 2 ^ (dx + s - dy - 1) <= q).
      { assert (H1 : 2 ^ (dx + s - dy - 1) * 2 ^ dy = 2 ^ (dx - 1) * 2 ^ s).
        { rewrite <- !Z.pow_add_r by lia. f_equal. lia. }
        assert (H2 : 0 < 2 ^ (dx + s - dy - 1))
          by (apply Z.pow_pos_nonneg; lia).
        assert (H3 : 2 ^ (dx + s - dy - 1) * Zpos my < Zpos my * (q + 1)) by nia.
        nia. }
      pose proof (Zdigits2_le (2 ^ (dx + s - dy - 1)) q) as Hle.
      rewrite Zdigits2_pow2 in Hle by lia.
      assert (0 <= 2 ^ (dx + s - dy - 1)) by (apply Z.pow_nonneg; lia).
      lia. }
  split; [exact Hq0|]. split; [unfold e'; lia|]. split; [unfold s in *; lia|].
  unfold s, e', fexp, emin, prec, emax in *. lia.
Qed.

Lemma SFdiv_finite_rounded sx mx ex sy my ey :
  rounded (xorb sx sy)
    (Z.max (Zpos (digits2_pos mx) + ex - ey) (emin prec emax)) true
    (SFdiv prec emax (S754_finite sx mx ex) (S754_finite sy my ey)).
Proof.
  cbn [SFdiv].
  pose proof (SFdiv_core_binary_spec mx ex my ey) as H.
  destruct (SFdiv_core_binary prec emax (Zpos mx) ex (Zpos my) ey)
    as [[q e'] l]. destruct H as (Hq & He & Hd & Hc).
  eapply rounded_weaken; [| |apply binary_round_aux_rounded; exact Hq].
  - pose proof (Zdigits2_nonneg q). unfold emin, prec, emax in *. lia.
  - intros _. by apply Z.leb_le.
Qed.

Lemma rounded_valid s T r : rounded s T true r -> valid_binary prec emax r = true.
Proof.
  destruct r as [s'|s'| |s' m' e']; cbn [rounded valid_binary]; try done.
  intros (_ & He & _ & _ & Hcan). unfold bounded.
  rewrite Hcan by reflexivity. by apply Z.leb_le.
Qed.

Lemma SFdiv_valid x y : valid_binary prec emax (SFdiv prec emax x y) = true.
Proof.
  destruct x as [sx|sx| |sx mx ex], y as [sy|sy| |sy my ey];
    try reflexivity.
  eapply rounded_valid, SFdiv_finite_rounded.
Qed.

(** *** Signs *)

Lemma rounded_nonneg T c r : rounded false T c r -> SFleb zero r = true.
Proof.
  destruct r as [s'|s'| |s' m' e']; cbn [rounded]; try done.
  - by intros [-> _].
  - by intros [-> _].
Qed.

Lemma binary_normalize_nonneg z e :
  0 <= z -> SFleb zero (binary_normalize prec emax z e false) = true.
Proof.
  intros Hz. destruct z as [|m|m]; [reflexivity| |lia].
  eapply rounded_nonneg, binary_round_rounded.
Qed.

(** Canonical mantissas: at most [prec] digits, and exactly [prec] above
    the smallest exponent. *)
Lemma canonical_digits m e :
  canonical_mantissa prec emax m e = true ->
  emin prec emax <= e /\
  Zpos (digits2_pos m) <= prec /\
  (emin prec emax < e -> Zpos (digits2_pos m) = prec).
Proof.
  unfold canonical_mantissa, fexp, emin, prec, emax.
  intros H. apply Z.eqb_eq in H. lia.
Qed.

(** Of two canonical positive mantissas, the one with the larger exponent
    is the larger number. *)
Lemma canonical_exponent_lt m1 e1 m2 e2 :
  canonical_mantissa prec emax m1 e1 = true ->
  canonical_mantissa prec emax m2 e2 = true ->
  e1 < e2 ->
  Zpos m1 <= Zpos m2 * 2 ^ (e2 - e1).
Proof.
  intros H1 H2 Hlt.
  destruct (canonical_digits m1 e1 H1) as (Hmin1 & Hd1 & _).
  destruct (canonical_digits m2 e2 H2) as (_ & _ & Hd2).
  specialize (Hd2 ltac:(lia)).
  pose proof (digits2_pos_bounds m1) as [_ Hhi].
  pose proof (digits2_pos_bounds m2) as [Hlo _].
  rewrite Hd2 in Hlo.
  assert (Hp1 : 2 ^ Zpos (digits2_pos m1) <= 2 ^ prec)
    by (apply Z.pow_le_mono_r; lia).
  assert (Hp2 : 2 ^ 1 <= 2 ^ (e2 - e1)) by (apply Z.pow_le_mono_r; lia).
  assert (Hp3 : 2 ^ prec = 2 ^ (prec - 1) * 2 ^ 1) by reflexivity.
  change (2 ^ 1) with 2 in *. nia.
Qed.

Lemma aligned_difference_nonneg sx mx ex sy my ey :
  valid_binary prec emax (S754_finite sx mx ex) = true ->
  valid_binary prec emax (S754_finite sy my ey) = true ->
  SFltb (S754_finite sy my ey) (S754_finite sx mx ex) = true ->
  0 <= cond_Zopp sx (Zpos (shl_align mx ex (Z.min ex ey)).1)
       - cond_Zopp sy (Zpos (shl_align my ey (Z.min ex ey)).1).
Proof.
  cbn [valid_binary]. unfold bounded. intros Hx Hy Hlt.
  apply andb_true_iff in Hx as [Hx _]. apply andb_true_iff in Hy as [Hy _].
  destruct (shl_align_spec mx ex (Z.min ex ey)) as [_ ->].
  destruct (shl_align_spec my ey (Z.min ex ey)) as [_ ->].
  replace (Z.min ex (Z.min ex ey)) with (Z.min ex ey) by lia.
  replace (Z.min ey (Z.min ex ey)) with (Z.min ex ey) by lia.
  unfold SFltb in Hlt. cbn [SFcompare] in Hlt.
  assert (Hpx : 0 < 2 ^ (ex - Z.min ex ey)) by (apply Z.pow_pos_nonneg; lia).
  assert (Hpy : 0 < 2 ^ (ey - Z.min ex ey)) by (apply Z.pow_pos_nonneg; lia).
  destruct sy, sx; cbn [cond_Zopp]; try discriminate.
  - (* both negative: y < x means |x| < |y| *)
    destruct (Z.compare_spec ey ex) as [Heq|Hlt'|Hgt]; try discriminate.
    + subst ey. rewrite Z.min_id, Z.sub_diag in *. simpl.
      change (Pos.compare_cont Eq my mx) with (my ?= mx)%positive in Hlt.
      destruct (Pos.compare_spec my mx); try discriminate. lia.
    + replace (Z.min ex ey) with ex by lia. rewrite Z.sub_diag.
      pose proof (canonical_exponent_lt mx ex my ey Hx Hy ltac:(lia)).
      simpl (2 ^ 0). lia.
  - (* y negative, x positive *) nia.
  - (* both positive *)
    destruct (Z.compare_spec ey ex) as [Heq|Hlt'|Hgt]; try discriminate.
    + subst ey. rewrite Z.min_id, Z.sub_diag in *. simpl.
      change (Pos.compare_cont Eq my mx) with (my ?= mx)%positive in Hlt.
      destruct (Pos.compare_spec my mx); try discriminate. lia.
    + replace (Z.min ex ey) with ey by lia. rewrite Z.sub_diag.
      pose proof (canonical_exponent_lt my ey mx ex Hy Hx ltac:(lia)).
      simpl (2 ^ 0). lia.
Qed.

(** If [y < x] then [x - y] is not negative (it may be an infinity). *)
Lemma SFsub_nonneg x y :
  valid_binary prec emax x = true -> valid_binary prec emax y = true ->
  SFltb y x = true ->
  SFleb zero (SFsub prec emax x y) = true.
Proof.
  intros Hx Hy Hlt.
  destruct x as [sx|sx| |sx mx ex], y as [sy|sy| |sy my ey];
    try discriminate Hlt;
    try (destruct sx, sy; first [discriminate Hlt | reflexivity]);
    try (destruct sx; first [discriminate Hlt | reflexivity]);
    try (destruct sy; first [discriminate Hlt | reflexivity]).
  cbn [SFsub]. apply binary_normalize_nonneg.
  by apply aligned_difference_nonneg.
Qed.

(** A non-negative value divided by a positive finite one is not negative. *)
Lemma SFdiv_nonneg x y :
  SFleb zero x = true -> SFltb zero y = true -> is_finite y = true ->
  SFleb zero (SFdiv prec emax x y) = true.
Proof.
  intros Hx Hy Hfin.
  destruct y as [sy|sy| |sy my ey]; try discriminate.
  destruct sy; [discriminate|].
  destruct x as [sx|sx| |sx mx ex]; try discriminate.
  - reflexivity.
  - destruct sx; [discriminate | reflexivity].
  - destruct sx; [discriminate|].
    eapply rounded_nonneg, (SFdiv_finite_rounded false mx ex false my ey).
Qed.

(** A non-negative value times a positive finite one is not negative. *)
Lemma SFmul_nonneg x y :
  SFleb zero x = true -> SFltb zero y = true -> is_finite y = true ->
  SFleb zero (SFmul prec emax x y) = true.
Proof.
  intros Hx Hy Hfin.
  destruct y as [sy|sy| |sy my ey]; try discriminate.
  destruct sy; [discriminate|].
  destruct x as [sx|sx| |sx mx ex]; try discriminate.
  - reflexivity.
  - destruct sx; [discriminate | reflexivity].
  - destruct sx; [discriminate|]. cbn [SFmul xorb].
    eapply rounded_nonneg, binary_round_aux_rounded. lia.
Qed.

(** *** Conversions of 64-bit integers *)

Lemma Zdigits2_int64 z : - 2 ^ 63 <= z <= 2 ^ 63 -> Zdigits2 z <= 64.
Proof.
  intros Hz.
  assert (H : forall p, Zpos p <= 2 ^ 63 -> Zpos (digits2_pos p) <= 64).
  { intros p Hp. pose proof (digits2_pos_bounds p) as [Hlo _].
    destruct (Z.le_gt_cases (Zpos (digits2_pos p)) 64) as [Hle|Hgt]; [done|].
    assert (2 ^ 64 <= 2 ^ (Zpos (digits2_pos p) - 1))
      by (apply Z.pow_le_mono_r; lia).
    lia. }
  destruct z as [|p|p]; cbn [Zdigits2]; [lia| |]; apply H; lia.
Qed.

Lemma of_Z_int64 z :
  - 2 ^ 63 <= z <= 2 ^ 63 ->
  match of_Z z with
  | S754_zero _ => True
  | S754_finite _ m e => Zpos (digits2_pos m) + e <= 65
  | _ => False
  end.
Proof.
  intros Hz. unfold of_Z.
  destruct (Z.eq_dec z 0) as [->|Hne]; [exact I|].
  pose proof (binary_normalize_rounded z 0 Hne) as H.
  pose proof (Zdigits2_int64 z Hz) as Hd.
  pose proof (Zdigits2_nonneg z) as Hd0.
  destruct (binary_normalize prec emax z 0 false) as [s'|s'| |s' m' e'];
    cbn [rounded] in H; unfold emin, prec, emax in H; [exact I| | |]; lia.
Qed.

Lemma wrap_int64_range z : - 2 ^ 63 <= wrap_int64 z <= 2 ^ 63.
Proof.
  unfold wrap_int64.
  pose proof (Z.mod_pos_bound (z + 2 ^ 63) (2 ^ 64) ltac:(lia)). lia.
Qed.

(** The elapsed seconds are never an infinity or a NaN. *)
Lemma elapsedSeconds_finite t t0 : is_finite (elapsedSeconds t t0) = true.
Proof.
  unfold elapsedSeconds, Double.div.
  pose proof (of_Z_int64 _ (wrap_int64_range (t - t0))) as H.
  change (Double.of_Z 1000) with (S754_finite false 8796093022208000 (-43)).
  fold (of_Z (wrap_int64 (t - t0))).
  destruct (of_Z (wrap_int64 (t - t0))) as [s|s| |s m e]; try done.
  pose proof (SFdiv_finite_rounded s m e false 8796093022208000 (-43)) as Hr.
  destruct (SFdiv prec emax (S754_finite s m e)
              (S754_finite false 8796093022208000 (-43)))
    as [s'|s'| |s' m' e']; cbn [rounded] in Hr; try done.
  unfold emin, prec, emax in Hr. lia.
Qed.

(** ** The sign of the percentage *)

Lemma linux_cpu_time_valid o : Double.valid (linux_cpu_time o) = true.
Proof.
  unfold linux_cpu_time, Double.valid, Double.div.
  destruct (stat_times o) as [[utime stime]|]; [|reflexivity].
  destruct (0 <? clk_tck o); [apply SFdiv_valid | reflexivity].
Qed.

Lemma mac_cpu_time_valid ti : Double.valid (mac_cpu_time ti) = true.
Proof. apply SFdiv_valid. Qed.

Lemma cpuTimeSeconds_valid p pid o cache :
  Double.valid (cpuTimeSeconds (getProcessStats p pid o cache).1) = true.
Proof.
  unfold getProcessStats. destruct (pid <=? 0); [reflexivity|].
  destruct p.
  - destruct (taskinfo o); [apply mac_cpu_time_valid | reflexivity].
  - apply linux_cpu_time_valid.
Qed.

(** The percentage block never yields a negative value or a NaN when the
    new reading exceeds the cached one. *)
Lemma cpu_percent_nonneg (cache : Cache) pid cpu t c0 t0 :
  cache !! pid = Some (c0, t0) ->
  Double.valid c0 = true -> Double.valid cpu = true ->
  (c0 <? cpu)%D = true ->
  (zero <=? cpu_percent cache pid cpu t)%D = true.
Proof.
  intros Hentry Hc0 Hcpu Hlt. unfold cpu_percent. rewrite Hentry.
  cbn [fst snd]. fold (elapsedSeconds t t0).
  destruct (of_Z 0 <? elapsedSeconds t t0)%D eqn:Hpos; [|reflexivity].
  apply SFmul_nonneg; [|reflexivity|reflexivity].
  apply SFdiv_nonneg.
  - by apply SFsub_nonneg.
  - exact Hpos.
  - apply elapsedSeconds_finite.
Qed.

(** * Further properties of the code *)

(** ** Single samplings *)

Lemma cpu_percent_local (cache cache' : Cache) pid cpu t :
  cache !! pid = cache' !! pid ->
  cpu_percent cache pid cpu t = cpu_percent cache' pid cpu t.
Proof. intros H. unfold cpu_percent. by rewrite H. Qed.

Lemma getProcessStats_stats_local p pid o (cache cache' : Cache) :
  cache !! pid = cache' !! pid ->
  (getProcessStats p pid o cache).1 = (getProcessStats p pid o cache').1.
Proof.
  intros H. unfold getProcessStats.
  destruct (pid <=? 0); [reflexivity|].
  destruct p.
  - destruct (taskinfo o); [|reflexivity]. simpl.
    by rewrite (cpu_percent_local cache cache').
  - simpl. by rewrite (cpu_percent_local cache cache').
Qed.

(** X1.  What [getProcessStats] returns for a pid, and the cache entry it
    leaves for that pid, depend only on the cache entry of that pid: the
    entries of other processes never influence a sample. *)
Theorem getProcessStats_reads_own_entry p pid o (cache cache' : Cache) :
  cache !! pid = cache' !! pid ->
  (getProcessStats p pid o cache).1 = (getProcessStats p pid o cache').1 /\
  (getProcessStats p pid o cache).2 !! pid =
    (getProcessStats p pid o cache').2 !! pid.
Proof.
  intros H. split; [by apply getProcessStats_stats_local|].
  rewrite !getProcessStats_cache.
  rewrite (getProcessStats_stats_local p pid o cache cache' H).
  destruct ((0 <? pid) && reaches_update p o); [|exact H].
  by rewrite !lookup_insert_eq.
Qed.

Lemma getProcessStats_reads_own_entry_witness :
  (getProcessStats Linux 7 (obs_live 300 3000) {[ 7 := (of_Z 2, 1000) ]}).1 =
  (getProcessStats Linux 7 (obs_live 300 3000)
     (<[ 9 := (of_Z 1, 500) ]> {[ 7 := (of_Z 2, 1000) ]})).1.
Proof.
  refine (proj1 (getProcessStats_reads_own_entry Linux 7 (obs_live 300 3000)
                   {[ 7 := (of_Z 2, 1000) ]}
                   (<[ 9 := (of_Z 1, 500) ]> {[ 7 := (of_Z 2, 1000) ]}) _)).
  vm_compute. reflexivity.
Defined.

Lemma getProcessStats_dom p pid o (cache : Cache) :
  dom cache ⊆ dom (getProcessStats p pid o cache).2 /\
  dom (getProcessStats p pid o cache).2 ⊆ {[pid]} ∪ dom cache.
Proof.
  rewrite getProcessStats_cache.
  destruct ((0 <? pid) && reaches_update p o).
  - rewrite dom_insert_L. set_solver.
  - set_solver.
Qed.

(** X2.  Single samplings never remove a cache entry: after any series of
    [getProcessStats] calls every key that was cached is still cached, and
    the only keys that can be new are the pids that were sampled.  So the
    cache grows by at most one entry per call and shrinks only through
    [getModuleStats] or [clearHistory]. *)
Theorem single_samplings_never_evict p calls (cache : Cache) :
  dom cache ⊆ dom (sample_series p cache calls) /\
  dom (sample_series p cache calls) ⊆ list_to_set calls.*1 ∪ dom cache /\
  (size cache <= size (sample_series p cache calls)
   <= size cache + length calls)%nat.
Proof.
  revert cache. unfold sample_series.
  induction calls as [|[pid o] calls IH]; intros cache; simpl.
  - split; [done|]. split; [set_solver | lia].
  - destruct (IH (getProcessStats p pid o cache).2) as (IH1 & IH2 & IH3 & IH4).
    destruct (getProcessStats_dom p pid o cache) as [H1 H2].
    pose proof (subseteq_size _ _ H1) as S1.
    pose proof (subseteq_size _ _ H2) as S2.
    pose proof (size_union_alt ({[pid]} : gset Z) (dom cache)) as Hu.
    pose proof (subseteq_size (dom cache ∖ {[pid]}) (dom cache)
                  ltac:(set_solver)) as Hd.
    rewrite size_singleton in Hu.
    rewrite !size_dom in S1. rewrite size_dom in S2.
    rewrite (size_dom cache) in Hd.
    split; [set_solver|]. split; [set_solver|]. lia.
Qed.

(** ** Batches *)

Lemma size_list_to_set_le (l : list Z) :
  (size (list_to_set l : gset Z) <= length l)%nat.
Proof.
  induction l as [|x l IH].
  - rewrite list_to_set_nil, size_empty. simpl. lia.
  - rewrite list_to_set_cons, size_union_alt, size_singleton. simpl.
    pose proof (subseteq_size (list_to_set l ∖ {[x]}) (list_to_set l : gset Z)
                  ltac:(set_solver)).
    lia.
Qed.

Lemma collect_modules_dom p w processes (cache : Cache) :
  dom (previous_cpu_times (collect_modules p w processes cache)) ⊆
    activePids processes.
Proof.
  intros k Hk. apply elem_of_dom in Hk.
  destruct (decide (k ∈ processes.*2)) as [Hin|Hout].
  - by apply elem_of_activePids.
  - rewrite collect_modules_cache_stale in Hk by done. by destruct Hk.
Qed.

(** X3.  After every call of [getModuleStats] the cache holds only pids of
    the mapping that was passed, so it has at most as many entries as the
    mapping: batch sampling keeps the cache bounded by the roster, whatever
    it held before. *)
Theorem getModuleStats_bounds_cache number quoted p w processes (cache : Cache) :
  dom (getModuleStats number quoted p w processes cache).2 ⊆
    activePids processes /\
  (size (getModuleStats number quoted p w processes cache).2
   <= length processes)%nat.
Proof.
  unfold getModuleStats. cbn [snd].
  pose proof (collect_modules_dom p w processes cache) as Hdom.
  split; [exact Hdom|].
  apply subseteq_size in Hdom. rewrite size_dom in Hdom.
  etrans; [exact Hdom|]. unfold activePids.
  etrans; [apply size_list_to_set_le|]. by rewrite length_fmap.
Qed.

Lemma sample_loop_app p (l1 l2 : Processes) :
  forall w st,
    sample_loop p w (l1 ++ l2) st =
      sample_loop p (fun j => w (length l1 + j)%nat) l2 (sample_loop p w l1 st).
Proof.
  induction l1 as [|entry l1 IH]; intros w st; [reflexivity|].
  simpl. by rewrite IH.
Qed.

Lemma elem_of_indexed (processes : Processes) i entry :
  (i, entry) ∈ indexed processes <-> processes !! i = Some entry.
Proof.
  unfold indexed. rewrite elem_of_lookup_imap. split.
  - intros (j & y & Heq & Hy). by injection Heq as -> ->.
  - intros H. by exists i, entry.
Qed.

Lemma elem_of_sampled_pids (processes : Processes) i name pid :
  processes !! i = Some (name, pid) -> valid_pid pid ->
  pid ∈ sampled_pids processes.
Proof.
  intros Hi Hv. unfold sampled_pids. apply list_elem_of_filter.
  split; [done|]. apply list_elem_of_fmap. exists (name, pid).
  split; [done|]. by eapply list_elem_of_lookup_2.
Qed.

Lemma sampled_pids_cons entry (rest : Processes) :
  sampled_pids (entry :: rest) =
    if decide (valid_pid entry.2) then entry.2 :: sampled_pids rest
    else sampled_pids rest.
Proof. unfold sampled_pids. simpl. by rewrite filter_cons. Qed.

Lemma sampled_pids_cons_NoDup entry (rest : Processes) :
  NoDup (sampled_pids (entry :: rest)) ->
  NoDup (sampled_pids rest) /\
  (valid_pid entry.2 -> entry.2 ∉ sampled_pids rest).
Proof.
  rewrite sampled_pids_cons. destruct (decide (valid_pid entry.2)).
  - intros H. apply NoDup_cons in H as [H1 H2]. done.
  - intros H. done.
Qed.

(** With distinct sampled pids, a sampled pid does not occur before or
    after its own entry. *)
Lemma sampled_pid_occurs_once (processes : Processes) :
  forall i name pid,
    NoDup (sampled_pids processes) ->
    processes !! i = Some (name, pid) -> valid_pid pid ->
    (pid ∉ (take i processes).*2) /\ (pid ∉ (drop (S i) processes).*2).
Proof.
  induction processes as [|entry rest IH]; intros i name pid Hnd Hi Hv;
    [done|].
  apply sampled_pids_cons_NoDup in Hnd as [Hnd Hfresh].
  destruct i as [|i]; simpl in *.
  - injection Hi as ->. simpl in Hfresh. split; [apply not_elem_of_nil|].
    intros Hin. apply (Hfresh Hv). unfold sampled_pids.
    apply list_elem_of_filter. done.
  - destruct (IH i name pid Hnd Hi Hv) as [Hbefore Hafter].
    split; [|done]. apply not_elem_of_cons. split; [|done].
    intros ->. apply (Hfresh Hv). by eapply elem_of_sampled_pids.
Qed.

(** With distinct sampled pids, the iteration that samples a pid finds the
    cache entry that the pid had before the batch. *)
Lemma cache_before_own_entry p w processes (cache : Cache) i name pid :
  NoDup (sampled_pids processes) ->
  processes !! i = Some (name, pid) -> valid_pid pid ->
  cache_before p w processes (loop_start processes cache) i !! pid =
    cache !! pid.
Proof.
  intros Hnd Hi Hv. unfold cache_before.
  destruct (sampled_pid_occurs_once processes i name pid Hnd Hi Hv)
    as [Hbefore _].
  rewrite sample_loop_cache_other by done. simpl.
  rewrite evict_stale_lookup, decide_True; [done|].
  apply elem_of_activePids, list_elem_of_fmap. exists (name, pid).
  split; [done|]. by eapply list_elem_of_lookup_2.
Qed.

Lemma collect_modules_independent p w processes (cache : Cache) :
  NoDup (sampled_pids processes) ->
  modulesArray (collect_modules p w processes cache) =
    (fun ie : nat * (string * Z) =>
       moduleObj ie.2.1 (getProcessStats p ie.2.2 (w ie.1) cache).1)
    <$> filter (fun ie => valid_pid ie.2.2) (indexed processes).
Proof.
  intros Hnd. unfold collect_modules. rewrite sample_loop_array. simpl.
  apply list_fmap_ext. intros j [i [name pid]] Hj.
  apply list_elem_of_lookup_2, list_elem_of_filter in Hj as [Hv Hin].
  apply elem_of_indexed in Hin. simpl in Hv.
  unfold appended. cbn [fst snd]. f_equal.
  apply getProcessStats_stats_local.
  by eapply cache_before_own_entry.
Qed.

(** X4.  When the positive pids of the mapping are pairwise distinct, a
    batch is a set of independent samples: every module's object carries
    exactly what a single [getProcessStats] call on the cache as it was
    before the batch returns for its pid, so the result does not depend on
    the order in which the [QHash] is traversed. *)
Theorem getModuleStats_independent_samples number quoted p w processes
    (cache : Cache) :
  NoDup (sampled_pids processes) ->
  (getModuleStats number quoted p w processes cache).1.1 =
    toJson_Compact number quoted
      ((fun ie : nat * (string * Z) =>
          moduleObj ie.2.1 (getProcessStats p ie.2.2 (w ie.1) cache).1)
       <$> filter (fun ie => valid_pid ie.2.2) (indexed processes)).
Proof.
  intros Hnd. unfold getModuleStats. cbn [fst].
  by rewrite collect_modules_independent.
Qed.

Lemma getModuleStats_independent_samples_witness :
  (getModuleStats (fun _ => "0") (fun s => s) Linux
     (fun _ => obs_live 300 3000) [("a", 5); ("bad", 0); ("b", 9)]
     {[ 9 := (of_Z 1, 500) ]}).1.1 =
  toJson_Compact (fun _ => "0") (fun s => s)
    [moduleObj "a"
       (getProcessStats Linux 5 (obs_live 300 3000) {[ 9 := (of_Z 1, 500) ]}).1;
     moduleObj "b"
       (getProcessStats Linux 9 (obs_live 300 3000) {[ 9 := (of_Z 1, 500) ]}).1].
Proof.
  apply (getModuleStats_independent_samples (fun _ => "0") (fun s => s) Linux
           (fun _ => obs_live 300 3000) [("a", 5); ("bad", 0); ("b", 9)]
           {[ 9 := (of_Z 1, 500) ]}).
  vm_compute. repeat constructor; rewrite ?elem_of_cons, ?elem_of_nil;
    intuition discriminate.
Defined.

Lemma sample_loop_baseline p w (processes : Processes) st i name pid :
  NoDup (sampled_pids processes) ->
  processes !! i = Some (name, pid) -> valid_pid pid ->
  reaches_update p (w i) = true ->
  previous_cpu_times (sample_loop p w processes st) !! pid =
    Some (cpuTimeSeconds
            (getProcessStats p pid (w i) (cache_before p w processes st i)).1,
          now (w i)).
Proof.
  intros Hnd Hi Hv Hreach. unfold cache_before.
  destruct (sampled_pid_occurs_once processes i name pid Hnd Hi Hv)
    as [_ Hafter].
  pose proof (lookup_lt_Some _ _ _ Hi) as Hlen.
  replace (sample_loop p w processes st)
    with (sample_loop p w (take i processes ++ (name, pid) :: drop (S i) processes) st)
    by (by rewrite take_drop_middle).
  rewrite sample_loop_app. simpl.
  rewrite sample_loop_cache_other by done.
  rewrite length_take, Nat.min_l, Nat.add_0_r by lia.
  unfold valid_pid in Hv. rewrite loop_body_valid by done. simpl.
  rewrite getProcessStats_cache.
  destruct (Z.ltb_spec 0 pid); [|lia]. rewrite Hreach. simpl.
  apply lookup_insert_eq.
Qed.

(** X5.  Successive polls.  Take two batches over the same mapping whose
    positive pids are pairwise distinct, and an entry whose process was
    sampled in both.  After the first batch the cache entry of its pid is
    the CPU time and the clock reading of that batch; the second batch
    reports, under the entry's name, the statistics of a single sample
    against that entry, so its [cpu_percent] is the rate between the two
    batches: [((cpu2 - cpu1) / elapsed) * 100.0] when the elapsed seconds
    are positive, and 0.0 otherwise. *)
Theorem successive_batches_report_rate number quoted p w1 w2 processes
    (cache : Cache) i name pid :
  NoDup (sampled_pids processes) ->
  processes !! i = Some (name, pid) ->
  0 < pid ->
  reaches_update p (w1 i) = true ->
  reaches_update p (w2 i) = true ->
  let first := (getProcessStats p pid (w1 i) cache).1 in
  let cache1 := (getModuleStats number quoted p w1 processes cache).2 in
  let second := (getProcessStats p pid (w2 i) cache1).1 in
  cache1 !! pid = Some (cpuTimeSeconds first, now (w1 i)) /\
  moduleObj name second ∈ modulesArray (collect_modules p w2 processes cache1) /\
  cpuPercent_as_specified (Some (cpuTimeSeconds first, now (w1 i)))
    second (now (w2 i)).
Proof.
  intros Hnd Hi Hpid Hr1 Hr2 first cache1 second.
  assert (Hbase : cache1 !! pid = Some (cpuTimeSeconds first, now (w1 i))).
  { subst cache1 first. unfold getModuleStats, collect_modules. cbn [snd].
    rewrite (sample_loop_baseline p w1 processes _ i name pid) by done.
    do 3 f_equal. apply getProcessStats_stats_local.
    by eapply cache_before_own_entry. }
  split; [exact Hbase|]. split.
  - rewrite collect_modules_independent by done.
    apply list_elem_of_fmap. exists (i, (name, pid)). split; [reflexivity|].
    apply list_elem_of_filter. split; [exact Hpid|].
    by apply elem_of_indexed.
  - subst second. rewrite <- Hbase.
    destruct (getProcessStats_reached p pid (w2 i) cache1 Hpid Hr2)
      as (cpu & mem & ->).
    apply cpu_percent_as_specified.
Qed.

Lemma successive_batches_report_rate_witness :
  cpuPercent_as_specified
    (Some (cpuTimeSeconds
             (getProcessStats Linux 9 (obs_live 200 1000) ∅).1, 1000))
    (getProcessStats Linux 9 (obs_live 300 3000)
       (getModuleStats (fun _ => "0") (fun s => s) Linux
          (fun _ => obs_live 200 1000) [("a", 5); ("b", 9)] ∅).2).1
    3000.
Proof.
  refine (proj2 (proj2 (successive_batches_report_rate (fun _ => "0")
            (fun s => s) Linux (fun _ => obs_live 200 1000)
            (fun _ => obs_live 300 3000) [("a", 5); ("b", 9)] ∅
            1%nat "b" 9 _ _ _ _ _))).
  - vm_compute. repeat constructor; rewrite ?elem_of_cons, ?elem_of_nil;
      intuition discriminate.
  - reflexivity.
  - lia.
  - reflexivity.
  - reflexivity.
Defined.

(** X6.  No entry of the mapping is dropped silently: every entry either
    yields one element of the array or one warning in the log, so the
    number of elements and the number of warnings add up to the size of
    the mapping, and the last log line reports the number of elements. *)
Theorem getModuleStats_accounts_for_every_entry number quoted p w processes
    cache :
  let st := collect_modules p w processes cache in
  let log := (getModuleStats number quoted p w processes cache).1.2 in
  (length (modulesArray st) + length (omap warned_name log) =
   length processes)%nat /\
  last log = Some (Debug_returning (length (modulesArray st))).
Proof.
  intros st log. subst st log. unfold getModuleStats. cbn [fst snd].
  split; [|by rewrite last_snoc].
  rewrite omap_app. simpl. rewrite app_nil_r.
  unfold collect_modules at 2. rewrite sample_loop_warnings. simpl.
  rewrite collect_modules_length, length_fmap, <- length_app.
  by rewrite filter_app_complement.
Qed.

(** ** Binary64 arithmetic: values that do not vanish *)

Lemma binary_round_aux_nonzero s m e l :
  0 < m -> -1021 <= Zdigits2 m + e ->
  rounded_nonzero s (Zdigits2 m + e) e (binary_round_aux prec emax s m e l).
Proof.
  intros Hm Hlow. unfold binary_round_aux.
  pose proof (shr_fexp_digits m e l ltac:(lia)) as (Hm1 & He1 & Hd1).
  destruct (shr_fexp prec emax m e l) as [mrs1 e1]. cbn [fst snd] in *.
  set (m2 := round_nearest_even (shr_m mrs1) (loc_of_shr_record mrs1)).
  pose proof (round_nearest_even_bounds (shr_m mrs1) (loc_of_shr_record mrs1))
    as Hm2. fold m2 in Hm2.
  assert (Hm2' : 0 <= m2) by lia.
  pose proof (Zdigits2_le (shr_m mrs1) m2 ltac:(lia)) as Hd2lo.
  pose proof (shr_fexp_digits m2 e1 loc_Exact Hm2') as (Hm3 & He2 & Hd3).
  destruct (shr_fexp prec emax m2 e1 loc_Exact) as [mrs2 e2].
  cbn [fst snd] in *.
  pose proof (Zdigits2_pos m Hm) as Hd.
  unfold fexp, emin, prec, emax in *.
  destruct (shr_m mrs2) as [|m'|m'] eqn:Hm'; cbn [Zdigits2] in Hd3.
  - cbn [rounded_nonzero]. lia.
  - destruct (Z.leb_spec e2 (1024 - 53)) as [Hle|Hgt]; cbn [rounded_nonzero].
    + repeat split; lia.
    + reflexivity.
  - lia.
Qed.

Lemma binary_round_nonzero s m e :
  -1021 <= Zpos (digits2_pos m) + e ->
  rounded_nonzero s (Zpos (digits2_pos m) + e)
    (Z.min e (fexp prec emax (Zpos (digits2_pos m) + e)))
    (binary_round prec emax s m e).
Proof.
  intros Hlow. unfold binary_round.
  pose proof (shl_align_digits m e (fexp prec emax (Zpos (digits2_pos m) + e)))
    as Hd.
  pose proof (shl_align_spec m e (fexp prec emax (Zpos (digits2_pos m) + e)))
    as [He _].
  destruct (shl_align m e (fexp prec emax (Zpos (digits2_pos m) + e)))
    as [mz ez]. cbn [fst snd] in *.
  pose proof (binary_round_aux_nonzero s (Zpos mz) ez loc_Exact ltac:(lia)
                ltac:(lia)) as H.
  rewrite Hd in H. subst ez. exact H.
Qed.

Lemma Zdigits2_uint64 z : 0 <= z < 2 ^ 64 -> Zdigits2 z <= 64.
Proof.
  intros [Hz0 Hz]. destruct (Z.eq_dec z 0) as [->|Hne]; [simpl; lia|].
  pose proof (Zdigits2_bounds z ltac:(lia)) as [Hlo _].
  destruct (Z.le_gt_cases (Zdigits2 z) 64) as [Hle|Hgt]; [done|].
  assert (2 ^ 64 <= 2 ^ (Zdigits2 z - 1)) by (apply Z.pow_le_mono_r; lia).
  lia.
Qed.

(** The conversion of a positive integer below [2^64]: a positive finite
    value, at least 1 and with an exponent of at least -52. *)
Lemma of_Z_positive z :
  0 < z < 2 ^ 64 ->
  exists m e,
    of_Z z = S754_finite false m e /\
    -52 <= e /\ 1 <= Zpos (digits2_pos m) + e <= 65.
Proof.
  intros [Hz0 Hz]. unfold of_Z.
  pose proof (Zdigits2_uint64 z ltac:(lia)) as Hd.
  destruct z as [|p|p]; try lia. cbn [binary_normalize Zdigits2] in *.
  pose proof (binary_round_nonzero false p 0 ltac:(lia)) as Hnz.
  pose proof (binary_round_rounded false p 0) as Hr.
  destruct (binary_round prec emax false p 0) as [s'|s'| |s' m' e'];
    cbn [rounded_nonzero rounded] in *; unfold fexp, emin, prec, emax in *;
    try lia; try done.
  destruct Hnz as (-> & He & HL). destruct Hr as (_ & _ & _ & HT & _).
  exists m', e'. repeat split; lia.
Qed.

Lemma SFdiv_core_binary_nonzero mx ex my ey :
  -1021 <= Zpos (digits2_pos mx) + ex - (Zpos (digits2_pos my) + ey) ->
  let '(q, e', _) := SFdiv_core_binary prec emax (Zpos mx) ex (Zpos my) ey in
  0 < q /\
  Zpos (digits2_pos mx) + ex - (Zpos (digits2_pos my) + ey) <= Zdigits2 q + e'.
Proof.
  intros HD. unfold SFdiv_core_binary. cbn [Zdigits2].
  set (dx := Zpos (digits2_pos mx)) in *. set (dy := Zpos (digits2_pos my)) in *.
  set (e' := Z.min (fexp prec emax (dx + ex - (dy + ey))) (ex - ey)).
  set (s := ex - ey - e').
  assert (Hs : 0 <= s) by (unfold s, e'; lia).
  assert (Hs53 : 53 <= dx + s - dy)
    by (unfold s, e', fexp, emin, prec, emax; lia).
  set (m' := match s with
             | 0 => Zpos mx
             | Zpos _ => Z.shiftl (Zpos mx) s
             | Zneg _ => 0
             end).
  assert (Hm' : m' = Zpos mx * 2 ^ s).
  { unfold m'. destruct s as [|p|p]; [simpl; lia| |lia].
    by rewrite Z.shiftl_mul_pow2. }
  pose proof (Z_div_mod m' (Zpos my) ltac:(lia)) as Hdiv.
  destruct (Z.div_eucl m' (Zpos my)) as [q r]. destruct Hdiv as [Hq Hr].
  pose proof (digits2_pos_bounds mx) as [Hxlo _].
  pose proof (digits2_pos_bounds my) as [_ Hyhi].
  fold dx in Hxlo. fold dy in Hyhi.
  assert (Hge : 2 ^ (dx + s - dy - 1) <= q).
  { assert (H1 : 2 ^ (dx + s - dy - 1) * 2 ^ dy = 2 ^ (dx - 1) * 2 ^ s).
    { rewrite <- !Z.pow_add_r by lia. f_equal. lia. }
    assert (H2 : 0 < 2 ^ (dx + s - dy - 1)) by (apply Z.pow_pos_nonneg; lia).
    assert (H4 : 0 < 2 ^ s) by (apply Z.pow_pos_nonneg; lia).
    assert (H3 : 2 ^ (dx + s - dy - 1) * Zpos my < Zpos my * (q + 1)) by nia.
    nia. }
  assert (Hpos : 0 < 2 ^ (dx + s - dy - 1)) by (apply Z.pow_pos_nonneg; lia).
  split; [lia|].
  pose proof (Zdigits2_le (2 ^ (dx + s - dy - 1)) q ltac:(lia)) as Hle.
  rewrite Zdigits2_pow2 in Hle by lia.
  unfold s in *. lia.
Qed.

(** A quotient of finite values that is above the underflow range is not
    a zero. *)
Lemma SFdiv_finite_nonzero sx mx ex sy my ey :
  -1021 <= Zpos (digits2_pos mx) + ex - (Zpos (digits2_pos my) + ey) ->
  match SFdiv prec emax (S754_finite sx mx ex) (S754_finite sy my ey) with
  | S754_zero _ | S754_nan => False
  | _ => True
  end.
Proof.
  intros HD. cbn [SFdiv].
  pose proof (SFdiv_core_binary_nonzero mx ex my ey HD) as H.
  destruct (SFdiv_core_binary prec emax (Zpos mx) ex (Zpos my) ey)
    as [[q e'] l]. destruct H as [Hq Hlow].
  pose proof (binary_round_aux_nonzero (xorb sx sy) q e' l Hq ltac:(lia)) as Hr.
  by destruct (binary_round_aux prec emax (xorb sx sy) q e' l).
Qed.

(** ** The guard on the elapsed time *)

Lemma rounded_negative_sign T c r :
  rounded true T c r -> SFltb zero r = false /\ SFleb r zero = true.
Proof.
  destruct r as [s'|s'| |s' m' e']; cbn [rounded]; try done.
  - by intros [-> _].
  - by intros [-> _].
Qed.

Lemma wrap_int64_id z : - 2 ^ 63 <= z < 2 ^ 63 -> wrap_int64 z = z.
Proof.
  intros Hz. unfold wrap_int64. rewrite Z.mod_small by lia. lia.
Qed.

Lemma of_Z_1000 : of_Z 1000 = S754_finite false 8796093022208000 (-43).
Proof. reflexivity. Qed.

(** The comparison [timeDelta > 0] on doubles decides whether the integer
    difference of the two clock readings is positive. *)
Lemma elapsedSeconds_positive t t0 :
  - 2 ^ 63 <= t - t0 < 2 ^ 63 ->
  (of_Z 0 <? elapsedSeconds t t0)%D = (t0 <? t).
Proof.
  intros Hrange. unfold elapsedSeconds, Double.ltb, Double.div.
  rewrite wrap_int64_id by done. rewrite of_Z_1000.
  change (of_Z 0) with zero.
  destruct (Z.ltb_spec t0 t) as [Hlt|Hge].
  - destruct (of_Z_positive (t - t0) ltac:(lia)) as (m & e & -> & He & Hd).
    pose proof (SFdiv_finite_rounded false m e false 8796093022208000 (-43))
      as Hr.
    pose proof (SFdiv_finite_nonzero false m e false 8796093022208000 (-43))
      as Hnz.
    change (Zpos (digits2_pos 8796093022208000)) with 53 in Hnz.
    specialize (Hnz ltac:(lia)).
    destruct (SFdiv prec emax (S754_finite false m e)
                (S754_finite false 8796093022208000 (-43)))
      as [s'|s'| |s' m' e']; cbn [rounded] in Hr; try done.
    + by destruct Hr as [-> _].
    + by destruct Hr as [-> _].
  - destruct (Z.eq_dec (t - t0) 0) as [->|Hne]; [reflexivity|].
    pose proof (binary_normalize_rounded (t - t0) 0 Hne) as Hr.
    destruct (Z.ltb_spec (t - t0) 0) as [_|]; [|lia].
    unfold of_Z.
    destruct (binary_normalize prec emax (t - t0) 0 false)
      as [s'|s'| |s' m' e']; cbn [rounded] in Hr; try done.
    + by destruct Hr as [-> _].
    + destruct Hr as (-> & _).
      pose proof (SFdiv_finite_rounded true m' e' false 8796093022208000 (-43))
        as Hq.
      by apply rounded_negative_sign in Hq as [Hq _].
Qed.

(** X7.  The guard of the percentage is exact on the clock readings: when
    the difference between the clock and the cached timestamp fits a
    [qint64], the call reports the rate
    [((cpuTimeSeconds - cached) / elapsed) * 100.0] exactly when the clock
    is later than the cached timestamp (by a millisecond or more), and 0.0
    when the clock shows the same or an earlier time. *)
Theorem cpuPercent_guard_follows_clock p pid o (cache : Cache) c0 t0 :
  0 < pid ->
  reaches_update p o = true ->
  cache !! pid = Some (c0, t0) ->
  - 2 ^ 63 <= now o - t0 < 2 ^ 63 ->
  let r := (getProcessStats p pid o cache).1 in
  cpuPercent r =
    if t0 <? now o
    then ((cpuTimeSeconds r - c0) / elapsedSeconds (now o) t0 * of_Z 100)%D
    else zero.
Proof.
  intros Hpid Hreach Hentry Hrange r. subst r.
  destruct (getProcessStats_reached p pid o cache Hpid Hreach)
    as (cpu & mem & ->). cbn [fst cpuPercent cpuTimeSeconds].
  unfold cpu_percent. rewrite Hentry. cbn [fst snd].
  fold (elapsedSeconds (now o) t0).
  by rewrite elapsedSeconds_positive.
Qed.

Lemma cpuPercent_guard_follows_clock_witness :
  cpuPercent
    (getProcessStats Linux 7 (obs_live 300 1000) {[ 7 := (of_Z 2, 1000) ]}).1 =
  zero.
Proof.
  apply (cpuPercent_guard_follows_clock Linux 7 (obs_live 300 1000)
           {[ 7 := (of_Z 2, 1000) ]} (of_Z 2) 1000).
  - lia.
  - reflexivity.
  - reflexivity.
  - simpl. lia.
Defined.

(** ** Signs and finiteness of the counters *)

Lemma of_Z_nonneg_cases z :
  0 <= z < 2 ^ 64 ->
  of_Z z = zero \/
  exists m e,
    of_Z z = S754_finite false m e /\
    -52 <= e /\ 1 <= Zpos (digits2_pos m) + e <= 65.
Proof.
  intros Hz. destruct (Z.eq_dec z 0) as [->|Hne]; [by left|].
  right. apply of_Z_positive. lia.
Qed.

(** A ratio of an unsigned 64-bit numerator and a positive denominator, as
    both bodies compute it: never negative, never an infinity or a NaN, and
    positive when the numerator is. *)
Lemma ratio_nonneg_finite a b :
  0 <= a < 2 ^ 64 -> 0 < b < 2 ^ 64 ->
  (zero <=? of_Z a / of_Z b)%D = true /\
  is_finite (of_Z a / of_Z b)%D = true /\
  (0 < a -> (zero <? of_Z a / of_Z b)%D = true).
Proof.
  intros Ha Hb. unfold Double.leb, Double.ltb, Double.div.
  destruct (of_Z_positive b Hb) as (mb & eb & -> & Heb & Hdb).
  destruct (of_Z_nonneg_cases a Ha) as [Hz|(ma & ea & Heq & Hea & Hda)].
  - rewrite Hz. repeat split; try reflexivity. intros Hpos.
    destruct (of_Z_positive a ltac:(lia)) as (m & e & Heq & _).
    rewrite Hz in Heq. discriminate.
  - assert (Hpos : 0 < a).
    { destruct (Z.eq_dec a 0) as [->|]; [discriminate Heq | lia]. }
    rewrite Heq.
    pose proof (SFdiv_finite_rounded false ma ea false mb eb) as Hr.
    pose proof (SFdiv_finite_nonzero false ma ea false mb eb ltac:(lia)) as Hnz.
    destruct (SFdiv prec emax (S754_finite false ma ea)
                (S754_finite false mb eb))
      as [s'|s'| |s' m' e']; cbn [rounded] in Hr; try done.
    + destruct Hr as [_ Hr]. unfold emin, prec, emax in Hr. lia.
    + by destruct Hr as [-> _].
Qed.

Lemma linux_cpu_time_nonneg_finite o :
  clk_tck o < 2 ^ 63 ->
  (zero <=? linux_cpu_time o)%D = true /\ is_finite (linux_cpu_time o) = true.
Proof.
  intros Hclk. unfold linux_cpu_time.
  destruct (stat_times o) as [[utime stime]|]; [|done].
  destruct (Z.ltb_spec 0 (clk_tck o)) as [Hpos|]; [|done].
  assert (Hsum : 0 <= wrap_uint64 (utime + stime) < 2 ^ 64)
    by (apply Z.mod_pos_bound; lia).
  destruct (ratio_nonneg_finite _ (clk_tck o) Hsum ltac:(lia)) as (H1 & H2 & _).
  done.
Qed.

Lemma mac_cpu_time_nonneg_finite ti :
  (zero <=? mac_cpu_time ti)%D = true /\ is_finite (mac_cpu_time ti) = true.
Proof.
  unfold mac_cpu_time.
  assert (Hsum : 0 <= wrap_uint64 (pti_total_user ti + pti_total_system ti)
                 < 2 ^ 64) by (apply Z.mod_pos_bound; lia).
  destruct (ratio_nonneg_finite _ 1000000 Hsum ltac:(lia)) as (H1 & H2 & _).
  done.
Qed.

Lemma of_Z_1024_squared : (of_Z 1024 * of_Z 1024)%D = of_Z 1048576.
Proof. reflexivity. Qed.

Lemma cpuTimeSeconds_nonneg_finite p pid o cache :
  clk_tck o < 2 ^ 63 ->
  (zero <=? cpuTimeSeconds (getProcessStats p pid o cache).1)%D = true /\
  is_finite (cpuTimeSeconds (getProcessStats p pid o cache).1) = true.
Proof.
  intros Hclk. unfold getProcessStats. destruct (pid <=? 0); [done|].
  destruct p.
  - destruct (taskinfo o); [apply mac_cpu_time_nonneg_finite | done].
  - by apply linux_cpu_time_nonneg_finite.
Qed.

(** X8.  With readings in the range of their C types, the CPU time and
    the memory that [getProcessStats] returns are never negative and never
    an infinity or a NaN, and a sampled process with a positive resident
    size is reported with [memoryMB > 0.0]. *)
Theorem counters_nonnegative_and_finite p pid o cache :
  in_range o ->
  let r := (getProcessStats p pid o cache).1 in
  (zero <=? cpuTimeSeconds r)%D = true /\
  is_finite (cpuTimeSeconds r) = true /\
  (zero <=? memoryMB r)%D = true /\
  is_finite (memoryMB r) = true /\
  (0 < pid ->
   match p with
   | Linux => exists kb, vm_rss_kb o = Some kb /\ 0 < kb
   | MacOS => exists ti, taskinfo o = Some ti /\ 0 < pti_resident_size ti
   end ->
   (zero <? memoryMB r)%D = true).
Proof.
  intros (Hclk & Hrss & Hres) r. subst r.
  destruct (cpuTimeSeconds_nonneg_finite p pid o cache Hclk) as [H1 H2].
  split; [exact H1|]. split; [exact H2|].
  unfold getProcessStats.
  destruct (Z.leb_spec pid 0) as [Hle|Hpos]; [repeat split; try done; lia|].
  destruct p; cbn [fst memoryMB].
  - destruct (taskinfo o) as [ti|] eqn:Hti.
    + cbn [memoryMB]. unfold mac_memory_mb. rewrite of_Z_1024_squared.
      destruct (ratio_nonneg_finite (pti_resident_size ti) 1048576
                  (Hres ti eq_refl) ltac:(lia)) as (M1 & M2 & M3).
      repeat split; try done.
      intros _ (ti' & Heq & Hp). injection Heq as <-. by apply M3.
    + repeat split; try done. by intros _ (ti' & Heq & _).
  - unfold linux_memory_mb. destruct (vm_rss_kb o) as [kb|] eqn:Hkb.
    + destruct (ratio_nonneg_finite kb 1024 (Hrss kb eq_refl) ltac:(lia))
        as (M1 & M2 & M3).
      repeat split; try done.
      intros _ (kb' & Heq & Hp). injection Heq as <-. by apply M3.
    + repeat split; try done. by intros _ (kb' & Heq & _).
Qed.

Lemma counters_nonnegative_and_finite_witness :
  (zero <? memoryMB (getProcessStats Linux 7 (obs_live 300 3000) ∅).1)%D = true.
Proof.
  refine (proj2 (proj2 (proj2 (proj2
            (counters_nonnegative_and_finite Linux 7 (obs_live 300 3000) ∅ _))))
            _ _).
  - unfold in_range, obs_live. cbn [clk_tck vm_rss_kb taskinfo].
    split; [lia|].
    split; intros x Hx; injection Hx as <-; cbn [pti_resident_size]; lia.
  - lia.
  - exists 2048. split; [reflexivity | lia].
Defined.

(** ** A process at rest, and a counter that went down *)

Lemma SFsub_diag x : is_finite x = true -> SFsub prec emax x x = zero.
Proof.
  destruct x as [s|s| |s m e]; try discriminate; intros _.
  - by destruct s.
  - cbn [SFsub]. by rewrite Z.sub_diag.
Qed.

Lemma cpu_percent_same_reading (cache : Cache) pid (cpu : double) t t0 :
  cache !! pid = Some (cpu, t0) -> is_finite cpu = true ->
  cpu_percent cache pid cpu t = zero.
Proof.
  intros Hentry Hfin. unfold cpu_percent. rewrite Hentry. cbn [fst snd].
  destruct (of_Z 0 <? of_Z (wrap_int64 (t - t0)) / of_Z 1000)%D eqn:Hpos;
    [|reflexivity].
  unfold Double.sub. rewrite SFsub_diag by done.
  unfold Double.ltb, Double.div in *.
  destruct (SFdiv prec emax (of_Z (wrap_int64 (t - t0))) (of_Z 1000))
    as [s|s| |s m e]; try discriminate; destruct s; try discriminate;
    reflexivity.
Qed.

(** X9.  A process at rest is reported at exactly 0.0 percent: when the
    CPU time read by a call equals the cached one, the returned
    [cpuPercent] is 0.0 whatever the two clock readings are. *)
Theorem unchanged_cpu_time_reports_zero p pid o (cache : Cache) t0 :
  0 < pid ->
  reaches_update p o = true ->
  clk_tck o < 2 ^ 63 ->
  let r := (getProcessStats p pid o cache).1 in
  cache !! pid = Some (cpuTimeSeconds r, t0) ->
  cpuPercent r = zero.
Proof.
  intros Hpid Hreach Hclk r Hentry. subst r.
  destruct (cpuTimeSeconds_nonneg_finite p pid o cache Hclk) as [_ Hfin].
  rewrite getProcessStats_cpuPercent.
  destruct ((0 <? pid) && reaches_update p o); [|reflexivity].
  by eapply cpu_percent_same_reading.
Qed.

Lemma unchanged_cpu_time_reports_zero_witness :
  cpuPercent
    (getProcessStats Linux 7 (obs_live 300 9000)
       (getProcessStats Linux 7 (obs_live 300 1000) ∅).2).1 = zero.
Proof.
  apply (unchanged_cpu_time_reports_zero Linux 7 (obs_live 300 9000)
           (getProcessStats Linux 7 (obs_live 300 1000) ∅).2 1000).
  - lia.
  - reflexivity.
  - simpl. lia.
  - vm_compute. reflexivity.
Defined.

Lemma binary_normalize_nonpos z e :
  z <= 0 -> SFleb (binary_normalize prec emax z e false) zero = true.
Proof.
  intros Hz. destruct z as [|m|m]; [reflexivity|lia|].
  cbn [binary_normalize].
  pose proof (binary_round_rounded true m e) as Hr.
  by apply rounded_negative_sign in Hr as [_ Hr].
Qed.

(** If [x < y] then [x - y] is not positive. *)
Lemma SFsub_nonpos x y :
  valid_binary prec emax x = true -> valid_binary prec emax y = true ->
  SFltb x y = true ->
  SFleb (SFsub prec emax x y) zero = true.
Proof.
  intros Hx Hy Hlt.
  destruct x as [sx|sx| |sx mx ex], y as [sy|sy| |sy my ey];
    try discriminate Hlt;
    try (destruct sx, sy; first [discriminate Hlt | reflexivity]);
    try (destruct sx; first [discriminate Hlt | reflexivity]);
    try (destruct sy; first [discriminate Hlt | reflexivity]).
  cbn [SFsub]. apply binary_normalize_nonpos.
  pose proof (aligned_difference_nonneg sy my ey sx mx ex Hy Hx Hlt) as H.
  rewrite (Z.min_comm ey ex) in H. lia.
Qed.

Lemma SFdiv_nonpos x y :
  SFleb x zero = true -> SFltb zero y = true -> is_finite y = true ->
  SFleb (SFdiv prec emax x y) zero = true.
Proof.
  intros Hx Hy Hfin.
  destruct y as [sy|sy| |sy my ey]; try discriminate.
  destruct sy; [discriminate|].
  destruct x as [sx|sx| |sx mx ex]; try discriminate.
  - reflexivity.
  - destruct sx; [reflexivity | discriminate].
  - destruct sx; [|discriminate].
    pose proof (SFdiv_finite_rounded true mx ex false my ey) as Hr.
    by apply rounded_negative_sign in Hr as [_ Hr].
Qed.

Lemma SFmul_nonpos x y :
  SFleb x zero = true -> SFltb zero y = true -> is_finite y = true ->
  SFleb (SFmul prec emax x y) zero = true.
Proof.
  intros Hx Hy Hfin.
  destruct y as [sy|sy| |sy my ey]; try discriminate.
  destruct sy; [discriminate|].
  destruct x as [sx|sx| |sx mx ex]; try discriminate.
  - reflexivity.
  - destruct sx; [reflexivity | discriminate].
  - destruct sx; [|discriminate]. cbn [SFmul xorb].
    pose proof (binary_round_aux_rounded true (Zpos (mx * my)) (ex + ey)
                  loc_Exact ltac:(lia)) as Hr.
    by apply rounded_negative_sign in Hr as [_ Hr].
Qed.

Lemma cpu_percent_nonpos (cache : Cache) pid cpu t c0 t0 :
  cache !! pid = Some (c0, t0) ->
  Double.valid c0 = true -> Double.valid cpu = true ->
  (cpu <? c0)%D = true ->
  (cpu_percent cache pid cpu t <=? zero)%D = true.
Proof.
  intros Hentry Hc0 Hcpu Hlt. unfold cpu_percent. rewrite Hentry.
  cbn [fst snd]. fold (elapsedSeconds t t0).
  destruct (of_Z 0 <? elapsedSeconds t t0)%D eqn:Hpos; [|reflexivity].
  apply SFmul_nonpos; [|reflexivity|reflexivity].
  apply SFdiv_nonpos.
  - by apply SFsub_nonpos.
  - exact Hpos.
  - apply elapsedSeconds_finite.
Qed.

(** X10.  A negative difference is not clamped, and it never turns into a
    positive percentage or a NaN: if a call returns a smaller
    [cpuTimeSeconds] than the call that wrote the cache entry of its pid
    (the counter was reset, the pid was reused, or on Linux the lookup
    failed and read 0.0), its [cpuPercent] is [<= 0.0]. *)
Theorem smaller_cpu_time_reports_nonpositive p pid o1 o2
    (cache between : Cache) :
  0 < pid ->
  reaches_update p o1 = true ->
  let first := getProcessStats p pid o1 cache in
  between !! pid = first.2 !! pid ->
  let second := getProcessStats p pid o2 between in
  (cpuTimeSeconds second.1 <? cpuTimeSeconds first.1)%D = true ->
  (cpuPercent second.1 <=? zero)%D = true.
Proof.
  intros Hpid Hreach first Hkept second Hless. subst second.
  rewrite getProcessStats_cpuPercent.
  destruct ((0 <? pid) && reaches_update p o2); [|reflexivity].
  apply cpu_percent_nonpos with (c0 := cpuTimeSeconds first.1) (t0 := now o1).
  - rewrite Hkept. subst first. rewrite getProcessStats_cache.
    destruct (Z.ltb_spec 0 pid); [|lia]. rewrite Hreach. simpl.
    apply lookup_insert_eq.
  - apply cpuTimeSeconds_valid.
  - apply cpuTimeSeconds_valid.
  - exact Hless.
Qed.

Lemma smaller_cpu_time_reports_nonpositive_witness :
  (cpuPercent
     (getProcessStats Linux 7 (obs_lookup_failed 3000)
        (getProcessStats Linux 7 (obs_live 200 1000) ∅).2).1 <=? zero)%D = true.
Proof.
  apply (smaller_cpu_time_reports_nonpositive Linux 7 (obs_live 200 1000)
           (obs_lookup_failed 3000) ∅
           (getProcessStats Linux 7 (obs_live 200 1000) ∅).2).
  - lia.
  - reflexivity.
  - reflexivity.
  - vm_compute. reflexivity.
Defined.

(** ** The Linux body reading [/proc] *)

Lemma append_cons c (s t : string) : String c s +:+ t = String c (s +:+ t).
Proof. reflexivity. Qed.

Lemma append_nil_l (s : string) : "" +:+ s = s.
Proof. reflexivity. Qed.

Lemma append_nil_r (s : string) : s +:+ "" = s.
Proof.
  induction s as [|c s IH]; [done|]. by rewrite append_cons, IH.
Qed.

Lemma append_assoc (s1 s2 s3 : string) :
  (s1 +:+ s2) +:+ s3 = s1 +:+ (s2 +:+ s3).
Proof.
  induction s1 as [|c s1 IH]; [done|]. by rewrite !append_cons, IH.
Qed.

Lemma append_snoc_cons (cur : string) c (t : string) :
  (cur +:+ String c "") +:+ t = cur +:+ String c t.
Proof. by rewrite append_assoc. Qed.

(** A run without white space goes to the token being read. *)
Lemma tokens_from_run (t : string) :
  forall cur s,
    no_space t = true ->
    tokens_from cur (t +:+ s) = tokens_from (cur +:+ t) s.
Proof.
  induction t as [|c t IH]; intros cur s Ht.
  - by rewrite append_nil_l, append_nil_r.
  - cbn [no_space] in Ht.
    apply andb_true_iff in Ht as [Hc Ht]. apply negb_true_iff in Hc.
    rewrite append_cons. cbn [tokens_from].
    rewrite Hc, IH by done. by rewrite append_snoc_cons.
Qed.

(** White space ends the token being read, and is skipped. *)
Lemma tokens_from_blank (b : string) :
  forall s, blank b = true -> tokens_from "" (b +:+ s) = tokens_from "" s.
Proof.
  induction b as [|c b IH]; intros s Hb; [done|].
  cbn [blank] in Hb.
  apply andb_true_iff in Hb as [Hc Hb]. apply andb_true_iff in Hc as [Hc _].
  rewrite append_cons. cbn [tokens_from]. rewrite Hc. by apply IH.
Qed.

Lemma tokens_from_field_space (t s : string) c :
  is_field t = true -> isspace c = true ->
  tokens_from "" (t +:+ String c s) = t :: tokens_from "" s.
Proof.
  intros Ht Hc. destruct t as [|a t]; [discriminate|].
  cbn [is_field] in Ht.
  rewrite tokens_from_run, append_nil_l by done.
  cbn [tokens_from]. by rewrite Hc.
Qed.

Lemma tokens_from_field_end (t : string) :
  is_field t = true -> tokens_from "" t = [t].
Proof.
  intros Ht. destruct t as [|a t]; [discriminate|].
  cbn [is_field] in Ht.
  rewrite <- (append_nil_r (String a t)) at 1.
  by rewrite tokens_from_run.
Qed.

(** The tokens of fields joined by single spaces are the fields. *)
Lemma tokens_concat (fields : list string) :
  Forall (fun t => is_field t = true) fields ->
  tokens (String.concat " " fields) = fields.
Proof.
  unfold tokens. induction fields as [|t [|t' fields] IH]; intros Hall.
  - reflexivity.
  - cbn [String.concat]. apply tokens_from_field_end. by inversion Hall.
  - inversion Hall as [|? ? Ht Hrest]; subst.
    change (String.concat " " (t :: t' :: fields))
      with (t +:+ String space (String.concat " " (t' :: fields))).
    rewrite tokens_from_field_space by done. by rewrite IH.
Qed.

Lemma no_newline_append (s1 s2 : string) :
  no_newline (s1 +:+ s2) = no_newline s1 && no_newline s2.
Proof.
  induction s1 as [|c s1 IH]; [done|].
  rewrite append_cons. cbn [no_newline]. by rewrite IH, andb_assoc.
Qed.

Lemma no_space_no_newline (s : string) :
  no_space s = true -> no_newline s = true.
Proof.
  induction s as [|c s IH]; [done|]. cbn [no_space no_newline]. intros H.
  apply andb_true_iff in H as [Hc Hs]. rewrite IH by done.
  rewrite andb_true_r. apply negb_true_iff in Hc. apply negb_true_iff.
  unfold isspace, is_newline in *.
  destruct (Nat.eqb_spec (Ascii.nat_of_ascii c) 10) as [Heq|]; [|done].
  rewrite Heq in Hc. discriminate.
Qed.

Lemma is_field_no_newline (t : string) :
  is_field t = true -> no_newline t = true.
Proof.
  intros Ht. apply no_space_no_newline. by destruct t.
Qed.

Lemma no_newline_concat (fields : list string) :
  Forall (fun t => is_field t = true) fields ->
  no_newline (String.concat " " fields) = true.
Proof.
  induction fields as [|t [|t' fields] IH]; intros Hall.
  - reflexivity.
  - inversion Hall as [|? ? Ht _]; subst. cbn [String.concat].
    by apply is_field_no_newline.
  - inversion Hall as [|? ? Ht Hrest]; subst.
    change (String.concat " " (t :: t' :: fields))
      with (t +:+ String space (String.concat " " (t' :: fields))).
    rewrite no_newline_append. cbn [no_newline]. rewrite IH by done.
    rewrite is_field_no_newline by done. reflexivity.
Qed.

(** A run without line feed goes to the line being read. *)
Lemma lines_from_run (l : string) :
  forall cur s,
    no_newline l = true ->
    lines_from cur (l +:+ s) = lines_from (cur +:+ l) s.
Proof.
  induction l as [|c l IH]; intros cur s Hl.
  - by rewrite append_nil_l, append_nil_r.
  - cbn [no_newline] in Hl.
    apply andb_true_iff in Hl as [Hc Hl]. apply negb_true_iff in Hc.
    rewrite append_cons. cbn [lines_from].
    rewrite Hc, IH by done. by rewrite append_snoc_cons.
Qed.

Lemma getlines_cons (l rest : string) :
  no_newline l = true ->
  getlines (l +:+ newline +:+ rest) = l :: getlines rest.
Proof.
  intros Hl. unfold getlines. rewrite lines_from_run by done.
  rewrite append_nil_l. reflexivity.
Qed.

Lemma getlines_unlines (before : list string) (rest : string) :
  Forall (fun l => no_newline l = true) before ->
  getlines (unlines before +:+ rest) = before ++ getlines rest.
Proof.
  induction before as [|l before IH]; intros Hall; [reflexivity|].
  inversion Hall as [|? ? Hl Hrest]; subst. cbn [unlines].
  rewrite !append_assoc, getlines_cons by done. by rewrite IH.
Qed.

Lemma read_stat_fields (fields : list string) f15 f16 v15 v16 more :
  Forall (fun t => is_field t = true) fields ->
  fields !! 14%nat = Some f15 -> fields !! 15%nat = Some f16 ->
  decimal_value f15 = Some v15 -> decimal_value f16 = Some v16 ->
  v15 < 2 ^ 64 -> v16 < 2 ^ 64 ->
  read_stat (Some (String.concat " " fields +:+ newline +:+ more)) =
    Extracted v15 v16.
Proof.
  intros Hall H15 H16 Hv15 Hv16 Hr15 Hr16. unfold read_stat.
  rewrite getlines_cons by (by apply no_newline_concat). cbn [hd].
  rewrite tokens_concat by done.
  rewrite (drop_S _ _ _ H15), (drop_S _ _ _ H16), Hv15, Hv16.
  destruct (Z.leb_spec (2 ^ 64) v15); [lia|].
  destruct (Z.leb_spec (2 ^ 64) v16); [lia|]. reflexivity.
Qed.

(** X11.  Of a stat line whose fields are separated by single spaces, the
    Linux body reads the 15th and the 16th field: its loop skips fourteen
    tokens, so the 14th field is passed over.  The CPU time returned is the
    sum of fields 15 and 16 (modulo [2 ^ 64]) divided by the clock ticks
    per second. *)
Theorem stat_fields_15_and_16_are_read (fields : list string) f15 f16 v15 v16
    more status clk t pid cache :
  Forall (fun f => is_field f = true) fields ->
  fields !! 14%nat = Some f15 -> fields !! 15%nat = Some f16 ->
  decimal_value f15 = Some v15 -> decimal_value f16 = Some v16 ->
  v15 < 2 ^ 64 -> v16 < 2 ^ 64 ->
  0 < pid -> 0 < clk ->
  let stat := Some (String.concat " " fields +:+ newline +:+ more) in
  read_stat stat = Extracted v15 v16 /\
  forall obs,
    linux_observation stat status clk t = Some obs ->
    cpuTimeSeconds (getProcessStats Linux pid obs cache).1 =
      (of_Z (wrap_uint64 (v15 + v16)) / of_Z clk)%D.
Proof.
  intros Hall H15 H16 Hv15 Hv16 Hr15 Hr16 Hpid Hclk stat.
  assert (Hread : read_stat stat = Extracted v15 v16)
    by (by eapply read_stat_fields).
  split; [exact Hread|]. intros obs Hobs.
  unfold linux_observation in Hobs. rewrite Hread in Hobs.
  assert (Hst : stat_times obs = Some (v15, v16) /\ clk_tck obs = clk).
  { destruct (read_status status); [| |discriminate];
      by injection Hobs as <-. }
  destruct Hst as [Hst Hck]. unfold getProcessStats.
  destruct (Z.leb_spec pid 0); [lia|]. cbn [fst cpuTimeSeconds].
  unfold linux_cpu_time. rewrite Hst, Hck.
  by destruct (Z.ltb_spec 0 clk); [|lia].
Qed.

Lemma stat_fields_15_and_16_are_read_witness :
  read_stat
    (Some (String.concat " "
             ["1234"; "(sleep)"; "S"; "1"; "1234"; "1234"; "0"; "-1";
              "4194304"; "100"; "0"; "0"; "0"; "7"; "3"; "11"; "13"; "20"]
           +:+ newline +:+ "")) = Extracted 3 11.
Proof.
  refine (proj1 (stat_fields_15_and_16_are_read
            ["1234"; "(sleep)"; "S"; "1"; "1234"; "1234"; "0"; "-1";
             "4194304"; "100"; "0"; "0"; "0"; "7"; "3"; "11"; "13"; "20"]
            "3" "11" 3 11 "" None 100 1000 7 ∅ _ _ _ _ _ _ _ _ _)).
  - repeat constructor.
  - reflexivity.
  - reflexivity.
  - reflexivity.
  - reflexivity.
  - lia.
  - lia.
  - lia.
  - lia.
Defined.

Lemma scan_status_skip (before rest : list string) :
  Forall other_line before ->
  scan_status (before ++ rest) = scan_status rest.
Proof.
  induction before as [|l before IH]; intros Hall; [reflexivity|].
  inversion Hall as [|? ? [_ Hl] Hrest]; subst.
  cbn [app scan_status]. rewrite Hl. by apply IH.
Qed.

Lemma blank_no_newline (b : string) : blank b = true -> no_newline b = true.
Proof.
  induction b as [|c b IH]; [done|]. cbn [blank no_newline]. intros H.
  apply andb_true_iff in H as [Hc Hb]. apply andb_true_iff in Hc as [_ Hc].
  by rewrite Hc, IH.
Qed.

Lemma VmRSS_line_no_newline (pad value : string) :
  blank pad = true -> is_field value = true ->
  no_newline (VmRSS_line pad value) = true.
Proof.
  intros Hpad Hval. unfold VmRSS_line.
  rewrite !no_newline_append, (blank_no_newline pad Hpad),
    (is_field_no_newline value Hval).
  reflexivity.
Qed.

Lemma VmRSS_line_tokens (pad value : string) :
  blank pad = true -> pad <> "" -> is_field value = true ->
  tokens (VmRSS_line pad value) = ["VmRSS:"; value; "kB"].
Proof.
  intros Hpad Hne Hval. unfold tokens, VmRSS_line.
  destruct pad as [|c pad]; [done|]. cbn [blank] in Hpad.
  apply andb_true_iff in Hpad as [Hc Hpad].
  apply andb_true_iff in Hc as [Hc _].
  change ("VmRSS:" +:+ String c pad +:+ value +:+ " kB")
    with ("VmRSS:" +:+ String c (pad +:+ value +:+ String space "kB")).
  rewrite (tokens_from_field_space "VmRSS:") by done.
  rewrite tokens_from_blank by done.
  by rewrite tokens_from_field_space.
Qed.

Lemma read_status_VmRSS (before : list string) pad value kb rest :
  Forall other_line before ->
  blank pad = true -> pad <> "" -> is_field value = true ->
  decimal_value value = Some kb -> kb < 2 ^ 64 ->
  read_status
    (Some (unlines before +:+ VmRSS_line pad value +:+ newline +:+ rest)) =
  ResidentKB kb.
Proof.
  intros Hbefore Hpad Hne Hval Hkb Hrange. unfold read_status.
  rewrite getlines_unlines
    by (eapply Forall_impl; [exact Hbefore|]; by intros l [Hl _]).
  rewrite getlines_cons by (by apply VmRSS_line_no_newline).
  rewrite scan_status_skip by done. cbn [scan_status].
  assert (Hprefix : String.prefix "VmRSS:" (VmRSS_line pad value) = true).
  { unfold VmRSS_line. by destruct (pad +:+ value +:+ " kB"). }
  rewrite Hprefix. unfold read_VmRSS_line.
  rewrite VmRSS_line_tokens, Hkb by done.
  by destruct (Z.ltb_spec kb (2 ^ 64)); [|lia].
Qed.

Lemma read_status_no_VmRSS (lines : list string) :
  Forall other_line lines ->
  read_status (Some (unlines lines)) = NoResident.
Proof.
  intros Hall. unfold read_status.
  rewrite <- (append_nil_r (unlines lines)).
  rewrite getlines_unlines
    by (eapply Forall_impl; [exact Hall|]; by intros l [Hl _]).
  by rewrite scan_status_skip.
Qed.

(** X12.  The memory is taken from the first line of the status file that
    starts with [VmRSS:]: its second token, in kB, divided by 1024.0;
    whatever follows that line is not read.  When no line starts with
    [VmRSS:] (as for a kernel thread) or the file does not open, the
    memory returned is 0.0. *)
Theorem status_VmRSS_decides_memory (before : list string) pad value kb rest
    stat clk t pid cache :
  Forall other_line before ->
  blank pad = true -> pad <> "" -> is_field value = true ->
  decimal_value value = Some kb -> kb < 2 ^ 64 ->
  0 < pid ->
  let found :=
    Some (unlines before +:+ VmRSS_line pad value +:+ newline +:+ rest) in
  let missing := Some (unlines before) in
  read_status found = ResidentKB kb /\
  read_status missing = NoResident /\
  (forall obs,
     linux_observation stat found clk t = Some obs ->
     memoryMB (getProcessStats Linux pid obs cache).1 = (of_Z kb / of_Z 1024)%D) /\
  (forall obs status,
     status = missing \/ status = None ->
     linux_observation stat status clk t = Some obs ->
     memoryMB (getProcessStats Linux pid obs cache).1 = zero).
Proof.
  intros Hbefore Hpad Hne Hval Hkb Hrange Hpid found missing.
  assert (Hfound : read_status found = ResidentKB kb)
    by (by apply read_status_VmRSS).
  assert (Hmissing : read_status missing = NoResident)
    by (by apply read_status_no_VmRSS).
  split; [exact Hfound|]. split; [exact Hmissing|].
  assert (Hmem : forall obs, memoryMB (getProcessStats Linux pid obs cache).1 =
                             linux_memory_mb obs).
  { intros obs. unfold getProcessStats. by destruct (Z.leb_spec pid 0); [lia|]. }
  split.
  - intros obs Hobs. rewrite Hmem. unfold linux_observation in Hobs.
    rewrite Hfound in Hobs. unfold linux_memory_mb.
    destruct (read_stat stat); [| |discriminate]; by injection Hobs as <-.
  - intros obs status Hstatus Hobs. rewrite Hmem.
    assert (Hread : read_status status = NoResident)
      by (by destruct Hstatus as [-> | ->]).
    unfold linux_observation in Hobs. rewrite Hread in Hobs.
    unfold linux_memory_mb.
    destruct (read_stat stat); [| |discriminate]; by injection Hobs as <-.
Qed.

Lemma status_VmRSS_decides_memory_witness :
  read_status
    (Some (unlines ["Name:" +:+ String tab "sleep"; "VmHWM:" +:+ String tab "    2100 kB"]
           +:+ VmRSS_line (String tab "    ") "2048" +:+ newline
           +:+ "RssAnon:" +:+ String tab "     100 kB" +:+ newline)) =
  ResidentKB 2048.
Proof.
  refine (proj1 (status_VmRSS_decides_memory
            ["Name:" +:+ String tab "sleep"; "VmHWM:" +:+ String tab "    2100 kB"]
            (String tab "    ") "2048" 2048
            ("RssAnon:" +:+ String tab "     100 kB" +:+ newline)
            None 100 1000 7 ∅ _ _ _ _ _ _ _)).
  - repeat constructor.
  - reflexivity.
  - discriminate.
  - reflexivity.
  - reflexivity.
  - lia.
  - lia.
Defined.

(** X13.  A process that has exited, on Linux: when the stat file yields no
    times and the status file no resident size (the files do not open), the
    call returns 0.0 for the CPU time and the memory and still overwrites
    the entry of the pid with [(0.0, now)]; the next such call therefore
    returns all zeros, and the entry stays in the cache. *)
Theorem exited_process_on_linux stat status pid clk t1 t2 (cache : Cache)
    obs1 obs2 :
  0 < pid ->
  read_stat stat = NotExtracted ->
  read_status status = NoResident ->
  linux_observation stat status clk t1 = Some obs1 ->
  linux_observation stat status clk t2 = Some obs2 ->
  let first := getProcessStats Linux pid obs1 cache in
  let second := getProcessStats Linux pid obs2 first.2 in
  cpuTimeSeconds first.1 = zero /\ memoryMB first.1 = zero /\
  first.2 !! pid = Some (zero, t1) /\
  second.1 = zero_stats /\
  second.2 !! pid = Some (zero, t2).
Proof.
  intros Hpid Hstat Hstatus Hobs1 Hobs2 first second.
  unfold linux_observation in Hobs1, Hobs2.
  rewrite Hstat, Hstatus in Hobs1, Hobs2.
  injection Hobs1 as <-. injection Hobs2 as <-.
  subst second first. unfold getProcessStats.
  destruct (Z.leb_spec pid 0); [lia|].
  unfold linux_cpu_time, linux_memory_mb, update_previous.
  cbn [fst snd stat_times vm_rss_kb now cpuTimeSeconds memoryMB].
  rewrite !lookup_insert_eq.
  repeat split.
  unfold zero_stats. f_equal.
  apply cpu_percent_same_reading with (t0 := t1); [|reflexivity].
  by rewrite lookup_insert_eq.
Qed.

Lemma exited_process_on_linux_witness :
  (getProcessStats Linux 7 (mkObs None None 100 None 2000)
     (getProcessStats Linux 7 (mkObs None None 100 None 1000)
        {[ 7 := (of_Z 3, 500) ]}).2).1 = zero_stats.
Proof.
  refine (proj1 (proj2 (proj2 (proj2
            (exited_process_on_linux None None 7 100 1000 2000
               {[ 7 := (of_Z 3, 500) ]} _ _ _ _ _ _ _))))).
  - lia.
  - reflexivity.
  - reflexivity.
  - reflexivity.
  - reflexivity.
Defined.

(** X14.  A batch that omits a pid forgets its baseline: after
    [getModuleStats] on a mapping without the pid the cache has no entry
    for it, whatever it held before, and the next batch that lists the pid
    (once) reports it, under its name, with a [cpu_percent] of 0.0. *)
Theorem omitted_process_restarts_at_zero number quoted p w2 w3
    (processes2 processes3 : Processes) (cache : Cache) i name pid :
  pid ∉ processes2.*2 ->
  NoDup (sampled_pids processes3) ->
  processes3 !! i = Some (name, pid) ->
  0 < pid ->
  let cache2 := (getModuleStats number quoted p w2 processes2 cache).2 in
  let r := (getProcessStats p pid (w3 i) cache2).1 in
  cache2 !! pid = None /\
  moduleObj name r ∈ modulesArray (collect_modules p w3 processes3 cache2) /\
  cpuPercent r = zero.
Proof.
  intros Hout Hnd Hi Hpid cache2 r.
  assert (Hnone : cache2 !! pid = None).
  { subst cache2. unfold getModuleStats. cbn [snd].
    apply not_elem_of_dom. intros Hin.
    apply collect_modules_dom in Hin. unfold activePids in Hin.
    by apply elem_of_list_to_set in Hin. }
  split; [exact Hnone|]. split.
  - rewrite collect_modules_independent by done.
    apply list_elem_of_fmap. exists (i, (name, pid)). split; [reflexivity|].
    apply list_elem_of_filter. split; [exact Hpid|].
    by apply elem_of_indexed.
  - subst r. rewrite getProcessStats_cpuPercent.
    destruct ((0 <? pid) && reaches_update p (w3 i)); [|reflexivity].
    by apply cpu_percent_no_entry.
Qed.

Lemma omitted_process_restarts_at_zero_witness :
  cpuPercent
    (getProcessStats Linux 9 (obs_live 300 3000)
       (getModuleStats (fun _ => "0") (fun s => s) Linux
          (fun _ => obs_live 200 2000) [("a", 5)]
          {[ 9 := (of_Z 1, 1000) ]}).2).1 = zero.
Proof.
  refine (proj2 (proj2 (omitted_process_restarts_at_zero
            (fun _ => "0") (fun s => s) Linux
            (fun _ => obs_live 200 2000) (fun _ => obs_live 300 3000)
            [("a", 5)] [("a", 5); ("b", 9)] {[ 9 := (of_Z 1, 1000) ]}
            1%nat "b" 9 _ _ _ _))).
  - cbn [fmap list_fmap snd]. apply not_elem_of_cons. split; [lia|].
    apply not_elem_of_nil.
  - vm_compute. repeat constructor.
    + intros H. apply elem_of_cons in H as [H|H]; [discriminate|].
      by apply not_elem_of_nil in H.
    + apply not_elem_of_nil.
  - reflexivity.
  - lia.
Defined.

(** ** Magnitudes: the percentage is never an infinity or a NaN *)

Lemma rounded_magnitude s T c r :
  T <= emax - prec -> rounded s T c r -> magnitude_below (T + 1) r.
Proof.
  intros HT Hr. destruct r as [s'|s'| |s' m e]; cbn [rounded magnitude_below] in *;
    try done.
  - destruct Hr as [_ Hr]. lia.
  - lia.
Qed.

Lemma magnitude_below_weaken T T' x :
  T <= T' -> magnitude_below T x -> magnitude_below T' x.
Proof. intros HT. destruct x; cbn [magnitude_below]; try done. lia. Qed.

Lemma magnitude_below_finite T x : magnitude_below T x -> is_finite x = true.
Proof. by destruct x. Qed.

Lemma ratio_magnitude a b :
  0 <= a < 2 ^ 64 -> 0 < b < 2 ^ 64 -> magnitude_below 118 (of_Z a / of_Z b)%D.
Proof.
  intros Ha Hb. unfold Double.div.
  destruct (of_Z_positive b Hb) as (mb & eb & -> & Heb & Hdb).
  destruct (of_Z_nonneg_cases a Ha) as [->|(ma & ea & -> & Hea & Hda)];
    [exact I|].
  pose proof (SFdiv_finite_rounded false ma ea false mb eb) as Hr.
  apply rounded_magnitude in Hr; [|unfold emin, emax, prec; lia].
  eapply magnitude_below_weaken; [|exact Hr]. unfold emin, emax, prec. lia.
Qed.

Lemma cpuTimeSeconds_magnitude p pid o cache :
  clk_tck o < 2 ^ 63 ->
  magnitude_below 118 (cpuTimeSeconds (getProcessStats p pid o cache).1).
Proof.
  intros Hclk. unfold getProcessStats. destruct (pid <=? 0); [exact I|].
  destruct p; cbn [fst cpuTimeSeconds].
  - destruct (taskinfo o) as [ti|]; [|exact I]. cbn [fst cpuTimeSeconds].
    unfold mac_cpu_time. apply ratio_magnitude; [|lia].
    apply Z.mod_pos_bound; lia.
  - unfold linux_cpu_time.
    destruct (stat_times o) as [[utime stime]|]; [|exact I].
    destruct (Z.ltb_spec 0 (clk_tck o)) as [Hpos|]; [|exact I].
    apply ratio_magnitude; [|lia]. apply Z.mod_pos_bound; lia.
Qed.

Lemma Zdigits2_abs_le a b : Z.abs a <= b -> Zdigits2 a <= Zdigits2 b.
Proof.
  intros Hab. destruct a as [|q|q].
  - apply Zdigits2_nonneg.
  - apply Zdigits2_le. lia.
  - change (Zdigits2 (Zneg q)) with (Zdigits2 (Zpos q)). apply Zdigits2_le. lia.
Qed.

Lemma Zdigits2_double m : 0 < m -> Zdigits2 (2 * m) = Zdigits2 m + 1.
Proof.
  intros Hm. replace (2 * m) with (m * 2 ^ 1) by lia.
  by rewrite Zdigits2_mul_pow2.
Qed.

Lemma SFsub_magnitude T x y :
  emin prec emax <= T + 1 -> T + 1 <= emax - prec ->
  magnitude_below T x -> magnitude_below T y -> magnitude_below (T + 2) (SFsub prec emax x y).
Proof.
  intros Hlo Hhi Hx Hy.
  destruct x as [sx|sx| |sx mx ex], y as [sy|sy| |sy my ey];
    cbn [magnitude_below] in Hx, Hy; try done.
  - by destruct sx, sy.
  - cbn [SFsub magnitude_below]. lia.
  - cbn [SFsub magnitude_below]. lia.
  - cbn [SFsub]. set (ez := Z.min ex ey).
    pose proof (shl_align_digits mx ex ez) as HA.
    pose proof (shl_align_digits my ey ez) as HB.
    destruct (shl_align_spec mx ex ez) as [HAe _].
    destruct (shl_align_spec my ey ez) as [HBe _].
    rewrite HAe in HA. rewrite HBe in HB.
    set (A := Zpos (shl_align mx ex ez).1) in *.
    set (B := Zpos (shl_align my ey ez).1) in *.
    set (z := cond_Zopp sx A - cond_Zopp sy B).
    destruct (Z.eq_dec z 0) as [Hz|Hz]; [by rewrite Hz|].
    pose proof (binary_normalize_rounded z ez Hz) as Hr.
    assert (Hd : Zdigits2 z <= Zdigits2 (Z.max A B) + 1).
    { rewrite <- Zdigits2_double by (subst A B; lia).
      apply Zdigits2_abs_le. subst z A B. destruct sx, sy; cbn [cond_Zopp]; lia. }
    assert (Hmax : Zdigits2 (Z.max A B) + ez <= T).
    { destruct (Z.max_spec A B) as [[_ ->]|[_ ->]]; subst ez; lia. }
    pose proof (Pos2Z.is_pos (digits2_pos mx)).
    apply rounded_magnitude in Hr.
    + eapply magnitude_below_weaken; [|exact Hr]. subst ez. lia.
    + subst ez. lia.
Qed.

Lemma SFdiv_magnitude T E x sy my ey :
  E <= ey -> emin prec emax <= T - E -> T - E <= emax - prec ->
  magnitude_below T x ->
  magnitude_below (T - E + 1) (SFdiv prec emax x (S754_finite sy my ey)).
Proof.
  intros HE Hlo Hhi Hx.
  destruct x as [sx|sx| |sx mx ex]; cbn [magnitude_below] in Hx; try done.
  pose proof (SFdiv_finite_rounded sx mx ex sy my ey) as Hr.
  apply rounded_magnitude in Hr; [|lia].
  eapply magnitude_below_weaken; [|exact Hr]. lia.
Qed.

Lemma digits2_pos_mul (a b : positive) :
  Zpos (digits2_pos (a * b)) <= Zpos (digits2_pos a) + Zpos (digits2_pos b).
Proof.
  pose proof (digits2_pos_bounds a) as [_ Ha].
  pose proof (digits2_pos_bounds b) as [_ Hb].
  pose proof (digits2_pos_bounds (a * b)) as [Hab _].
  rewrite Pos2Z.inj_mul in Hab.
  assert (Hlt : 2 ^ (Zpos (digits2_pos (a * b)) - 1) <
                2 ^ (Zpos (digits2_pos a) + Zpos (digits2_pos b))).
  { rewrite Z.pow_add_r by lia.
    eapply Z.le_lt_trans; [exact Hab|]. apply Z.mul_lt_mono_nonneg; lia. }
  apply Z.pow_lt_mono_r_iff in Hlt; lia.
Qed.

Lemma SFmul_magnitude T D x sy my ey :
  Zpos (digits2_pos my) + ey <= D ->
  emin prec emax <= T + D -> T + D <= emax - prec ->
  magnitude_below T x ->
  magnitude_below (T + D + 1) (SFmul prec emax x (S754_finite sy my ey)).
Proof.
  intros HD Hlo Hhi Hx.
  destruct x as [sx|sx| |sx mx ex]; cbn [magnitude_below] in Hx; try done.
  cbn [SFmul].
  pose proof (binary_round_aux_rounded (xorb sx sy) (Zpos (mx * my)) (ex + ey)
                loc_Exact ltac:(lia)) as Hr.
  pose proof (digits2_pos_mul mx my) as Hmul.
  pose proof (Pos2Z.is_pos (digits2_pos mx)).
  pose proof (Pos2Z.is_pos (digits2_pos my)).
  cbn [Zdigits2] in Hr.
  apply (rounded_weaken _ _ (T + D) _ false) in Hr; [|lia|done].
  by apply rounded_magnitude in Hr.
Qed.

Lemma SFdiv_finite_lower sx mx ex sy my ey :
  -1021 <= Zpos (digits2_pos mx) + ex - (Zpos (digits2_pos my) + ey) ->
  match SFdiv prec emax (S754_finite sx mx ex) (S754_finite sy my ey) with
  | S754_finite _ m e =>
      Zpos (digits2_pos mx) + ex - (Zpos (digits2_pos my) + ey) <=
      Zpos (digits2_pos m) + e
  | S754_infinity _ => True
  | S754_zero _ | S754_nan => False
  end.
Proof.
  intros HD. cbn [SFdiv].
  pose proof (SFdiv_core_binary_nonzero mx ex my ey HD) as H.
  destruct (SFdiv_core_binary prec emax (Zpos mx) ex (Zpos my) ey)
    as [[q e'] l]. destruct H as [Hq Hlow].
  pose proof (binary_round_aux_nonzero (xorb sx sy) q e' l Hq ltac:(lia)) as Hr.
  destruct (binary_round_aux prec emax (xorb sx sy) q e' l);
    cbn [rounded_nonzero] in Hr; try done. lia.
Qed.

(** When the guard [timeDelta > 0] holds, the elapsed seconds are at least
    a millisecond: a positive finite value whose exponent is not below
    [-62]. *)
Lemma elapsedSeconds_guard t t0 :
  (of_Z 0 <? elapsedSeconds t t0)%D = true ->
  exists m e, elapsedSeconds t t0 = S754_finite false m e /\ -62 <= e.
Proof.
  unfold elapsedSeconds, Double.ltb, Double.div. rewrite of_Z_1000.
  change (of_Z 0) with zero.
  pose proof (wrap_int64_range (t - t0)) as Hn.
  set (n := wrap_int64 (t - t0)) in *. intros Hpos.
  destruct (Z.lt_trichotomy n 0) as [Hneg|[Hz|Hgt]].
  - exfalso. pose proof (binary_normalize_rounded n 0 ltac:(lia)) as Hr.
    destruct (Z.ltb_spec n 0) as [_|]; [|lia]. unfold of_Z in Hpos.
    destruct (binary_normalize prec emax n 0 false)
      as [s'|s'| |s' m' e']; cbn [rounded] in Hr; try done.
    + destruct Hr as [-> _]. discriminate.
    + destruct Hr as [-> _].
      pose proof (SFdiv_finite_rounded true m' e' false 8796093022208000 (-43))
        as Hq.
      apply rounded_negative_sign in Hq as [Hq _]. congruence.
  - rewrite Hz in Hpos. discriminate.
  - destruct (of_Z_positive n ltac:(lia)) as (m & e & Heq & He & Hd).
    rewrite Heq in *.
    pose proof (SFdiv_finite_rounded false m e false 8796093022208000 (-43))
      as Hr.
    pose proof (SFdiv_finite_lower false m e false 8796093022208000 (-43))
      as Hl.
    change (Zpos (digits2_pos 8796093022208000)) with 53 in Hl.
    specialize (Hl ltac:(lia)).
    destruct (SFdiv prec emax (S754_finite false m e)
                (S754_finite false 8796093022208000 (-43)))
      as [s'|s'| |s' m' e']; cbn [rounded] in Hr; try done.
    + destruct Hr as [_ Hr]. unfold emin, emax, prec in Hr. lia.
    + destruct Hr as (-> & _ & _ & _ & Hc). exists m', e'.
      split; [reflexivity|].
      destruct (canonical_digits m' e' (Hc eq_refl)) as (_ & Hd' & _).
      unfold prec in Hd'. lia.
Qed.

Lemma of_Z_100 : of_Z 100 = S754_finite false 7036874417766400 (-46).
Proof. reflexivity. Qed.

Lemma cpu_percent_finite (cache : Cache) pid cpu t :
  cache_bounded cache -> magnitude_below 118 cpu ->
  is_finite (cpu_percent cache pid cpu t) = true.
Proof.
  intros Hc Hcpu. unfold cpu_percent.
  destruct (cache !! pid) as [[c0 t0]|] eqn:Hentry; [|reflexivity].
  cbn [fst snd]. fold (elapsedSeconds t t0).
  destruct (of_Z 0 <? elapsedSeconds t t0)%D eqn:Hpos; [|reflexivity].
  destruct (elapsedSeconds_guard t t0 Hpos) as (m & e & -> & He).
  pose proof (SFsub_magnitude 118 cpu c0 ltac:(unfold emin, emax, prec; lia)
                ltac:(unfold emax, prec; lia) Hcpu (Hc _ _ _ Hentry)) as Hsub.
  pose proof (SFdiv_magnitude (118 + 2) (-62) _ false m e He
                ltac:(unfold emin, emax, prec; lia)
                ltac:(unfold emax, prec; lia) Hsub) as Hdiv.
  rewrite of_Z_100.
  pose proof (SFmul_magnitude (118 + 2 - -62 + 1) 7 _ false 7036874417766400 (-46)
                ltac:(vm_compute; discriminate)
                ltac:(unfold emin, emax, prec; lia)
                ltac:(unfold emax, prec; lia) Hdiv) as Hmul.
  eapply magnitude_below_finite. exact Hmul.
Qed.

Lemma getProcessStats_cpuPercent_finite p pid o (cache : Cache) :
  cache_bounded cache -> clk_tck o < 2 ^ 63 ->
  is_finite (cpuPercent (getProcessStats p pid o cache).1) = true.
Proof.
  intros Hc Hclk. rewrite getProcessStats_cpuPercent.
  destruct ((0 <? pid) && reaches_update p o); [|reflexivity].
  apply cpu_percent_finite; [exact Hc|]. by apply cpuTimeSeconds_magnitude.
Qed.

Lemma getProcessStats_cache_magnitude p pid o (cache : Cache) :
  clk_tck o < 2 ^ 63 -> cache_bounded cache ->
  cache_bounded (getProcessStats p pid o cache).2.
Proof.
  intros Hclk Hc k c t. rewrite getProcessStats_cache.
  destruct ((0 <? pid) && reaches_update p o); [|apply Hc].
  destruct (decide (k = pid)) as [->|Hne].
  - rewrite lookup_insert_eq. intros [= <- _]. by apply cpuTimeSeconds_magnitude.
  - rewrite lookup_insert_ne by done. apply Hc.
Qed.

Lemma evict_stale_magnitude active (cache : Cache) :
  cache_bounded cache -> cache_bounded (evict_stale active cache).
Proof.
  intros Hc k c t H. unfold evict_stale in H.
  apply map_lookup_filter_Some in H as [H _]. by eapply Hc.
Qed.

Lemma sample_loop_magnitude p (processes : Processes) :
  forall w st,
    (forall i, clk_tck (w i) < 2 ^ 63) ->
    cache_bounded (previous_cpu_times st) ->
    cache_bounded (previous_cpu_times (sample_loop p w processes st)).
Proof.
  induction processes as [|entry rest IH]; intros w st Hw Hst; [exact Hst|].
  cbn [sample_loop]. apply IH; [intros i; apply Hw|].
  unfold loop_body. destruct (entry.2 <=? 0); cbn [previous_cpu_times];
    [exact Hst|]. by apply getProcessStats_cache_magnitude.
Qed.

Lemma perform_magnitude p (cache : Cache) op :
  op_in_range op -> cache_bounded cache -> cache_bounded (perform p cache op).
Proof.
  intros Hop Hc. destruct op as [pid o|w processes|]; cbn [perform op_in_range] in *.
  - by apply getProcessStats_cache_magnitude.
  - unfold collect_modules, loop_start. apply sample_loop_magnitude; [exact Hop|].
    cbn [previous_cpu_times]. by apply evict_stale_magnitude.
  - intros k c t H. unfold clearHistory in H. by rewrite lookup_empty in H.
Qed.

Lemma cache_after_magnitude p history :
  Forall op_in_range history -> cache_bounded (cache_after p history).
Proof.
  unfold cache_after.
  assert (Hempty : cache_bounded ∅).
  { intros k c t H. by rewrite lookup_empty in H. }
  revert Hempty. generalize (∅ : Cache).
  induction history as [|op history IH]; intros cache Hc Hall; [exact Hc|].
  inversion Hall as [|? ? Hop Hrest]; subst. cbn [foldl].
  apply IH; [|exact Hrest]. by apply perform_magnitude.
Qed.

(** X15.  The percentage is always a number.  After any history of the
    three operations that starts with the empty cache, every cached CPU
    time is finite, the [cpuPercent] of the next [getProcessStats] is
    finite, and so is the [cpu_percent] of every object of the array that
    the next [getModuleStats] builds: never an infinity, never a NaN.
    (The clock ticks per second are in the range of [long].) *)
Theorem cpuPercent_always_finite p history :
  Forall op_in_range history ->
  let cache := cache_after p history in
  (forall pid c t, cache !! pid = Some (c, t) -> is_finite c = true) /\
  (forall pid o,
     clk_tck o < 2 ^ 63 ->
     is_finite (cpuPercent (getProcessStats p pid o cache).1) = true) /\
  (forall w processes,
     (forall i, clk_tck (w i) < 2 ^ 63) ->
     Forall (fun obj => exists name r,
               obj = moduleObj name r /\ is_finite (cpuPercent r) = true)
       (modulesArray (collect_modules p w processes cache))).
Proof.
  intros Hall cache.
  pose proof (cache_after_magnitude p history Hall) as Hc. fold cache in Hc.
  split; [|split].
  - intros pid c t H. eapply magnitude_below_finite. by eapply Hc.
  - intros pid o Hclk. by apply getProcessStats_cpuPercent_finite.
  - intros w processes Hw. unfold collect_modules.
    rewrite sample_loop_array. cbn [loop_start modulesArray app].
    apply Forall_fmap, Forall_forall. intros [i [name pid]] _.
    exists name. eexists. split; [reflexivity|]. cbn [fst snd].
    apply getProcessStats_cpuPercent_finite; [|apply Hw].
    unfold cache_before. apply sample_loop_magnitude; [exact Hw|].
    cbn [previous_cpu_times]. by apply evict_stale_magnitude.
Qed.

Lemma cpuPercent_always_finite_witness :
  is_finite
    (cpuPercent
       (getProcessStats Linux 7 (obs_live 12 3000)
          (cache_after Linux
             [SampleOne 7 (obs_live 5 1000);
              SampleBatch (fun _ => obs_live 9 2000) [("a", 7)]])).1) = true.
Proof.
  refine (proj1 (proj2 (cpuPercent_always_finite Linux
            [SampleOne 7 (obs_live 5 1000);
             SampleBatch (fun _ => obs_live 9 2000) [("a", 7)]] _))
            7 (obs_live 12 3000) _).
  - constructor; [cbn; lia|]. constructor; [|constructor].
    intros i. cbn. lia.
  - cbn. lia.
Defined.

(** X16.  The counterpart of X10: if a call returns a larger
    [cpuTimeSeconds] than the call that wrote the cache entry of its pid,
    its [cpuPercent] is [>= 0.0], whatever the two clock readings are (the
    code returns 0.0 unless the elapsed seconds it computes are
    positive). *)
Theorem larger_cpu_time_reports_nonnegative p pid o1 o2
    (cache between : Cache) :
  0 < pid ->
  reaches_update p o1 = true ->
  let first := getProcessStats p pid o1 cache in
  between !! pid = first.2 !! pid ->
  let second := getProcessStats p pid o2 between in
  (cpuTimeSeconds first.1 <? cpuTimeSeconds second.1)%D = true ->
  (zero <=? cpuPercent second.1)%D = true.
Proof.
  intros Hpid Hreach first Hkept second Hwork. subst second.
  rewrite getProcessStats_cpuPercent.
  destruct ((0 <? pid) && reaches_update p o2); [|reflexivity].
  apply cpu_percent_nonneg with (c0 := cpuTimeSeconds first.1) (t0 := now o1).
  - rewrite Hkept. subst first. rewrite getProcessStats_cache.
    destruct (Z.ltb_spec 0 pid); [|lia]. rewrite Hreach. simpl.
    apply lookup_insert_eq.
  - apply cpuTimeSeconds_valid.
  - apply cpuTimeSeconds_valid.
  - exact Hwork.
Qed.

Lemma larger_cpu_time_reports_nonnegative_witness :
  (zero <=?
   cpuPercent
     (getProcessStats Linux 7 (obs_live 300 3000)
        (getProcessStats Linux 9 (obs_live 50 2000)
           (getProcessStats Linux 7 (obs_live 200 1000) ∅).2).2).1)%D = true.
Proof.
  apply (larger_cpu_time_reports_nonnegative Linux 7 (obs_live 200 1000)
           (obs_live 300 3000) ∅
           (getProcessStats Linux 9 (obs_live 50 2000)
              (getProcessStats Linux 7 (obs_live 200 1000) ∅).2).2).
  - lia.
  - reflexivity.
  - vm_compute. reflexivity.
  - vm_compute. reflexivity.
Defined.

(** ** C5: CPU work that is reported as a negative percentage *)

(** C5.  On Linux the claim fails for a process whose command name
    contains spaces.  The process below consumes 500 clock ticks of user
    time ([utime] goes from 7 to 507) in the five seconds between two
    calls, while the foreground process group of its terminal changes from
    4000 to 3000.  The body splits the line at white space and skips
    fourteen tokens, so what it extracts is [tpgid] and [flags], not
    [utime] and [stime]; the CPU time it computes decreases, and the second
    call returns a [cpuPercent] of exactly [-200.0]. *)
Theorem cpu_work_reported_as_negative_percent :
  let before := eight_word_process "4000" "7" in
  let after := eight_word_process "3000" "507" in
  proc_stat_cpu_ticks before = Some 10 /\
  proc_stat_cpu_ticks after = Some 510 /\
  read_stat (Some (proc_stat_text before)) = Extracted 4000 4194304 /\
  read_stat (Some (proc_stat_text after)) = Extracted 3000 4194304 /\
  exists obs1 obs2,
    linux_observation (Some (proc_stat_text before)) None 100 1000 =
      Some obs1 /\
    linux_observation (Some (proc_stat_text after)) None 100 6000 =
      Some obs2 /\
    now obs1 < now obs2 /\
    let first := getProcessStats Linux 1234 obs1 ∅ in
    let second := getProcessStats Linux 1234 obs2 first.2 in
    cpuPercent second.1 = of_Z (-200) /\
    (zero <=? cpuPercent second.1)%D = false.
Proof.
  cbv zeta.
  split; [vm_compute; reflexivity|]. split; [vm_compute; reflexivity|].
  split; [vm_compute; reflexivity|]. split; [vm_compute; reflexivity|].
  eexists _, _.
  split; [vm_compute; reflexivity|]. split; [vm_compute; reflexivity|].
  split; [cbn; lia|]. split; vm_compute; reflexivity.
Qed.

(** ** C9: which calls return and which raise *)

Lemma decimal_not_rejected (value : string) kb :
  decimal_value value = Some kb -> stod_rejects value = false.
Proof.
  destruct value as [|c rest]; [discriminate|].
  cbn [decimal_value decimal_from stod_rejects]. unfold may_start_number.
  by destruct (digit_of c).
Qed.

(** What [read_status] yields, from the argument of [std::stod]. *)
Lemma read_status_stod_argument (file : option string) :
  read_status file =
    match stod_argument file with
    | None => NoResident
    | Some value =>
        match decimal_value value with
        | Some kb => if kb <? 2 ^ 64 then ResidentKB kb else StatusNotModelled
        | None => StatusNotModelled
        end
    end.
Proof.
  destruct file as [text|]; [|reflexivity]. cbn [read_status stod_argument].
  induction (getlines text) as [|line rest IH]; [reflexivity|].
  cbn [scan_status stod_argument_in].
  destruct (String.prefix "VmRSS:" line); [|exact IH].
  unfold read_VmRSS_line. by destruct (tokens line) as [|? [|? ?]].
Qed.

Lemma linux_observation_not_rejected stat status clk t o value :
  linux_observation stat status clk t = Some o ->
  stod_argument status = Some value ->
  stod_rejects value = false.
Proof.
  unfold linux_observation. rewrite read_status_stod_argument.
  intros Hobs Hvalue. rewrite Hvalue in Hobs.
  destruct (decimal_value value) as [kb|] eqn:Hkb;
    [by eapply decimal_not_rejected|].
  by destruct (read_stat stat).
Qed.

Lemma getProcessStats_mac_reads pid o cache :
  getProcessStats MacOS pid (mac_observation (taskinfo o) (now o)) cache =
  getProcessStats MacOS pid o cache.
Proof. reflexivity. Qed.

Lemma getProcessStats_exn_nonpositive pid h cache :
  pid <= 0 -> getProcessStats_exn pid h cache = Returns (zero_stats, cache).
Proof.
  intros Hpid. unfold getProcessStats_exn.
  by destruct (Z.leb_spec pid 0); [|lia].
Qed.

Lemma getProcessStats_exn_returns p pid h o cache :
  host_reads p h o ->
  getProcessStats_exn pid h cache = Returns (getProcessStats p pid o cache).
Proof.
  intros Hread. unfold getProcessStats_exn.
  destruct (Z.leb_spec pid 0) as [Hle|Hpos];
    [by rewrite getProcessStats_nonpositive|].
  destruct p, h as [ti t|stat status clk t]; cbn [host_reads] in Hread;
    try done.
  - destruct Hread as [<- <-]. by rewrite getProcessStats_mac_reads.
  - rewrite Hread.
    destruct (stod_argument status) as [value|] eqn:Hvalue; [|reflexivity].
    by rewrite (linux_observation_not_rejected _ _ _ _ _ _ Hread Hvalue).
Qed.

Lemma getProcessStats_exn_thrown pid h cache cache' :
  getProcessStats_exn pid h cache = Thrown cache' <->
  cache' = cache /\ 0 < pid /\ stod_throws_on h.
Proof.
  unfold getProcessStats_exn. split.
  - destruct (Z.leb_spec pid 0) as [Hle|Hpos]; [discriminate|].
    destruct h as [ti t|stat status clk t]; [discriminate|].
    cbn [stod_throws_on].
    destruct (stod_argument status) as [value|].
    + destruct (stod_rejects value) eqn:Hrej.
      * intros [= <-]. repeat split; [done|]. by exists value.
      * by destruct (linux_observation stat status clk t).
    + by destruct (linux_observation stat status clk t).
  - intros (-> & Hpos & Hthrows).
    destruct (Z.leb_spec pid 0); [lia|].
    destruct h as [ti t|stat status clk t]; [done|].
    destruct Hthrows as (value & -> & ->). reflexivity.
Qed.

Lemma sample_loop_exn_returns p (processes : Processes) :
  forall w wo st,
    (forall i name pid,
       processes !! i = Some (name, pid) -> 0 < pid ->
       host_reads p (w i) (wo i)) ->
    sample_loop_exn w processes st = Returns (sample_loop p wo processes st).
Proof.
  induction processes as [|[name pid] rest IH]; intros w wo st Hread;
    [reflexivity|].
  cbn [sample_loop_exn sample_loop fst snd].
  assert (Hrest : forall i name' pid',
             rest !! i = Some (name', pid') -> 0 < pid' ->
             host_reads p (w (S i)) (wo (S i)))
    by (intros i name' pid' Hi; by apply (Hread (S i) name' pid')).
  destruct (Z.leb_spec pid 0) as [Hle|Hpos].
  - rewrite loop_body_invalid by done. by apply IH.
  - rewrite (getProcessStats_exn_returns p pid (w 0%nat) (wo 0%nat))
      by (by apply (Hread 0%nat name pid)).
    rewrite loop_body_valid by done. by apply IH.
Qed.

Lemma sample_loop_exn_thrown (processes : Processes) :
  forall w st cache',
    sample_loop_exn w processes st = Thrown cache' ->
    exists i name pid,
      processes !! i = Some (name, pid) /\ 0 < pid /\ stod_throws_on (w i).
Proof.
  induction processes as [|[name pid] rest IH]; intros w st cache' Hthrown;
    [discriminate|].
  cbn [sample_loop_exn fst snd] in Hthrown.
  destruct (Z.leb_spec pid 0) as [Hle|Hpos].
  - destruct (IH _ _ _ Hthrown) as (i & name' & pid' & Hi & Hpid & Hw).
    by exists (S i), name', pid'.
  - destruct (getProcessStats_exn pid (w 0%nat) (previous_cpu_times st))
      as [r|c|] eqn:Hcall; [| |discriminate].
    + destruct (IH _ _ _ Hthrown) as (i & name' & pid' & Hi & Hpid & Hw).
      by exists (S i), name', pid'.
    + apply getProcessStats_exn_thrown in Hcall as (_ & _ & Hw).
      by exists 0%nat, name, pid.
Qed.

Lemma sample_loop_exn_throws p (processes : Processes) :
  forall i w st name pid,
    processes !! i = Some (name, pid) -> 0 < pid ->
    stod_throws_on (w i) ->
    (forall j name' pid',
       (j < i)%nat -> processes !! j = Some (name', pid') -> 0 < pid' ->
       exists o, host_reads p (w j) o) ->
    exists cache', sample_loop_exn w processes st = Thrown cache'.
Proof.
  induction processes as [|[name0 pid0] rest IH];
    intros i w st name pid Hi Hpid Hthrows Hbefore; [done|].
  cbn [sample_loop_exn fst snd].
  destruct i as [|i].
  - injection Hi as -> ->. destruct (Z.leb_spec pid 0); [lia|].
    exists (previous_cpu_times st).
    assert (Hcall : getProcessStats_exn pid (w 0%nat) (previous_cpu_times st)
                    = Thrown (previous_cpu_times st))
      by (by apply getProcessStats_exn_thrown).
    by rewrite Hcall.
  - assert (Hrest : forall j name' pid',
               (j < i)%nat -> rest !! j = Some (name', pid') -> 0 < pid' ->
               exists o, host_reads p (w (S j)) o).
    { intros j name' pid' Hj Hlook Hpos.
      apply (Hbefore (S j) name' pid'); [lia|done|done]. }
    destruct (Z.leb_spec pid0 0) as [Hle|Hpos].
    + by eapply (IH i (fun k => w (S k))).
    + destruct (Hbefore 0%nat name0 pid0 ltac:(lia) eq_refl Hpos) as [o Ho].
      rewrite (getProcessStats_exn_returns p pid0 (w 0%nat) o) by done.
      by eapply (IH i (fun k => w (S k))).
Qed.

Lemma sample_loop_exn_length (processes : Processes) :
  forall w st st',
    sample_loop_exn w processes st = Returns st' ->
    length (modulesArray st') =
      (length (modulesArray st) + length (sampled_pids processes))%nat.
Proof.
  induction processes as [|[name pid] rest IH]; intros w st st' Hret.
  - injection Hret as <-. cbn. lia.
  - cbn [sample_loop_exn fst snd] in Hret. rewrite sampled_pids_cons.
    cbn [snd]. destruct (Z.leb_spec pid 0) as [Hle|Hpos].
    + rewrite (IH _ _ _ Hret). cbn [modulesArray].
      destruct (decide (valid_pid pid)) as [Hv|_]; [unfold valid_pid in Hv; lia|].
      reflexivity.
    + destruct (getProcessStats_exn pid (w 0%nat) (previous_cpu_times st))
        as [r|c|]; [|discriminate|discriminate].
      rewrite (IH _ _ _ Hret). cbn [modulesArray]. rewrite length_app.
      destruct (decide (valid_pid pid)) as [_|Hv]; [|by unfold valid_pid in Hv].
      cbn [length]. lia.
Qed.

Lemma getModuleStats_exn_returned number quoted w processes cache text log
    cache' :
  getModuleStats_exn number quoted w processes cache =
    Returns (text, log, cache') ->
  exists arr,
    text = toJson_Compact number quoted arr /\
    length arr = length (sampled_pids processes) /\
    last log = Some (Debug_returning (length arr)).
Proof.
  unfold getModuleStats_exn.
  destruct (sample_loop_exn w processes (loop_start processes cache))
    as [st|c|] eqn:Hloop; [|discriminate|discriminate].
  intros [= <- <- <-]. exists (modulesArray st).
  split; [reflexivity|]. split.
  - by rewrite (sample_loop_exn_length _ _ _ _ Hloop).
  - by rewrite last_snoc.
Qed.



